(** * Sansar vertex-animation-texture encoder: a shallow embedding

    The development follows [__init__.py] of the Sansar Blender tools:
    the Morton index mapper ([DecodeMorton2X], [DecodeMorton2Y]), the
    header written by [get_vertex_data], the per-frame accumulation of
    offsets and rotations, the capacity checks of
    [OBJECT_OT_ProcessAnimMeshes.execute] and the two layouts (Z-curve
    and linear) that [execute] hands to [bake_vertex_data]. *)

From Stdlib Require Import ZArith Lia Bool List.
From Stdlib Require Import Floats.
From Stdlib Require Import Strings.String.
From stdpp Require Import base option list.

Local Open Scope Z_scope.

(** ** Morton index mapper *)

Module Morton.

(** [DecodeMorton2X], lines 296-302 of the source.  Python integers are
    unbounded and [&], [|], [>>] act on the infinite two's complement
    representation, which is what [Z.land], [Z.lor], [Z.shiftr] do. *)
Definition DecodeMorton2X (code : Z) : Z :=
  let code := Z.land code 0x55555555 in
  let code := Z.land (Z.lor code (Z.shiftr code 1)) 0x33333333 in
  let code := Z.land (Z.lor code (Z.shiftr code 2)) 0x0F0F0F0F in
  let code := Z.land (Z.lor code (Z.shiftr code 4)) 0x00FF00FF in
  let code := Z.land (Z.lor code (Z.shiftr code 8)) 0x0000FFFF in
  code.

(** [DecodeMorton2Y], lines 304-310 of the source. *)
Definition DecodeMorton2Y (code : Z) : Z :=
  let code := Z.land (Z.shiftr code 1) 0x55555555 in
  let code := Z.land (Z.lor code (Z.shiftr code 1)) 0x33333333 in
  let code := Z.land (Z.lor code (Z.shiftr code 2)) 0x0F0F0F0F in
  let code := Z.land (Z.lor code (Z.shiftr code 4)) 0x00FF00FF in
  let code := Z.land (Z.lor code (Z.shiftr code 8)) 0x0000FFFF in
  code.

Definition MortonDecode (code : Z) : Z * Z :=
  (DecodeMorton2X code, DecodeMorton2Y code).

End Morton.

(** ** Scalars, vectors and the part of [mathutils] the encoder calls *)

(** The numbers the encoder stores are floating-point values: the
    coordinates are [mathutils] floats and both buffers are numpy
    [float64] arrays.  The encoder only subtracts them and stores
    integers into them, so the embedding is parametric in the scalar
    type: [fzero] is the fill value of [np.zeros], [fone] the constant
    alpha [1], [of_int] the conversion of a Python integer stored into
    a numpy cell and [fsub] the subtraction of two coordinates. *)
Class Scalar (F : Type) : Type := {
  fzero : F;
  fone : F;
  of_int : Z -> F;
  fsub : F -> F -> F
}.

Record Vec3 (F : Type) : Type := mkVec3 { vx : F; vy : F; vz : F }.
Arguments mkVec3 {F} _ _ _.
Arguments vx {F} _.
Arguments vy {F} _.
Arguments vz {F} _.

(** [mathutils.Matrix((r0, r1, r2))]: the three vectors are the rows. *)
Record Mat3 (F : Type) : Type := mkMat3 { row0 : Vec3 F; row1 : Vec3 F; row2 : Vec3 F }.
Arguments mkMat3 {F} _ _ _.
Arguments row0 {F} _.
Arguments row1 {F} _.
Arguments row2 {F} _.

Record Quat (F : Type) : Type := mkQuat { qw : F; qx : F; qy : F; qz : F }.
Arguments mkQuat {F} _ _ _ _.
Arguments qw {F} _.
Arguments qx {F} _.
Arguments qy {F} _.
Arguments qz {F} _.

(** The [mathutils] operations of lines 229-241.  The library is not
    part of the repository, so its operations are an interface.
    [inverted] is partial: [Matrix.inverted()] raises [ValueError] on a
    matrix that has no inverse. *)
Class Mathutils (F : Type) : Type := {
  normalized : Vec3 F -> Vec3 F;
  cross : Vec3 F -> Vec3 F -> Vec3 F;
  inverted : Mat3 F -> option (Mat3 F);
  matmul : Mat3 F -> Mat3 F -> Mat3 F;
  to_quaternion : Mat3 F -> Quat F
}.

(** One RGBA pixel: a row of a numpy array of shape [(n, 4)]. *)
Record Pixel (F : Type) : Type := px { chan0 : F; chan1 : F; chan2 : F; chan3 : F }.
Arguments px {F} _ _ _ _.
Arguments chan0 {F} _.
Arguments chan1 {F} _.
Arguments chan2 {F} _.
Arguments chan3 {F} _.

(** ** Mesh snapshots *)

(** [me.vertices[i]]: the index of a vertex is its position in the list. *)
Record MeshVertex (F : Type) : Type := mkVertex { co : Vec3 F }.
Arguments mkVertex {F} _.
Arguments co {F} _.

(** [me.loops[j]] after [calc_tangents()]: a face corner with the vertex
    it refers to, its normal and its tangent. *)
Record MeshLoop (F : Type) : Type := mkLoop {
  vertex_index : nat;
  normal : Vec3 F;
  tangent : Vec3 F
}.
Arguments mkLoop {F} _ _ _.
Arguments vertex_index {F} _.
Arguments normal {F} _.
Arguments tangent {F} _.

Record Mesh (F : Type) : Type := mkMesh {
  vertices : list (MeshVertex F);
  loops : list (MeshLoop F)
}.
Arguments mkMesh {F} _ _.
Arguments vertices {F} _.
Arguments loops {F} _.

(** ** Header codec (lines 204-210) *)

Module Header.

(** [(n // 2048) - 2048]; Python's [//] is floor division, as [Z.div]
    is for a positive divisor. *)
Definition MSH (n : Z) : Z := n / 2048 - 2048.

(** [(n % 2048) - 2048]. *)
Definition LSH (n : Z) : Z := n mod 2048 - 2048.

(** The three integers of line 209, in the order they are stored. *)
Definition header_ints (vertex_count frame_count : Z) : Z * Z * Z :=
  (MSH vertex_count, LSH vertex_count, LSH frame_count).

(** The decode rule, written from the specification:
    [n = (MSH + 2048)*2048 + (LSH + 2048)]. *)
Definition decode (msh lsh : Z) : Z := (msh + 2048) * 2048 + (lsh + 2048).

End Header.

(** ** Capacity checks of [execute] (lines 452-472) *)

Inductive Failure : Type :=
  | ModifierNotAllowed (mod_type : string)
  | VertexLimitExceeded
  | FrameLimitExceeded
  | PixelBudgetExceeded.

(** The three [if] statements in the order of the source; [None] when
    none of them returns [{'CANCELLED'}]. *)
Definition capacity_check (vertex_count frame_count : Z) : option Failure :=
  if vertex_count >? 4096 * 4095 then Some VertexLimitExceeded
  else if frame_count >? 4096 then Some FrameLimitExceeded
  else if frame_count * vertex_count + 1 >? 8192 * 8192 then Some PixelBudgetExceeded
  else None.

Definition allowed_modifiers : list string :=
  [ "ARMATURE"; "CAST"; "CURVE"; "DISPLACE"; "HOOK";
    "LAPLACIANDEFORM"; "LATTICE"; "MESH_DEFORM";
    "SHRINKWRAP"; "SIMPLE_DEFORM"; "SMOOTH";
    "CORRECTIVE_SMOOTH"; "LAPLACIANSMOOTH";
    "SURFACE_DEFORM"; "WARP"; "WAVE" ]%string.

(** Lines 443-451: the first modifier type that is not allowed. *)
Fixpoint modifier_check (mods : list string) : option Failure :=
  match mods with
  | [] => None
  | m :: rest =>
      if existsb (String.eqb m) allowed_modifiers then modifier_check rest
      else Some (ModifierNotAllowed m)
  end.

(** ** numpy arrays and Python sequences *)

(** [arr[i] = x] on a numpy array or [seq[i]] on a Python sequence
    raises [IndexError] out of range; every index the encoder uses is
    a sum of lengths and positions, hence never negative. *)
Definition np_set {A : Type} (arr : list A) (i : nat) (x : A) : option (list A) :=
  if decide (i < length arr)%nat then Some (<[i:=x]> arr) else None.

Definition pixel_list {F : Type} (p : Pixel F) : list F :=
  [chan0 p; chan1 p; chan2 p; chan3 p].

(** [arr.flatten()] of an array of shape [(n, 4)]. *)
Definition flatten {F : Type} (buf : list (Pixel F)) : list F :=
  concat (map pixel_list buf).

(** [flat[idx * 4 : (idx + 1) * 4]] read as one pixel. *)
Definition pixel_at {F : Type} (flat : list F) (idx : nat) : option (Pixel F) :=
  match take 4 (drop (4 * idx) flat) with
  | [c0; c1; c2; c3] => Some (px c0 c1 c2 c3)
  | _ => None
  end.

(** ** The frame delta accumulator: [get_vertex_data] (lines 193-267) *)

Section Accumulator.
Context {F : Type} `{Scalar F} `{Mathutils F}.

Definition zero_pixel : Pixel F := px fzero fzero fzero fzero.

(** [np.zeros((n, 4))]. *)
Definition np_zeros (n : nat) : list (Pixel F) := replicate n zero_pixel.

(** Lines 209-210: the tuple stored into row 0 of both arrays. *)
Definition header_pixel (vertex_count frame_count : Z) : Pixel F :=
  let '(vertex_count_MSH, vertex_count_LSH, frame_count_LSH) :=
    Header.header_ints vertex_count frame_count in
  px (of_int vertex_count_MSH) (of_int vertex_count_LSH) (of_int frame_count_LSH) fone.

(** [v.co - original[v.index].co], component by component. *)
Definition vsub (a b : Vec3 F) : Vec3 F :=
  mkVec3 (fsub (vx a) (vx b)) (fsub (vy a) (vy b)) (fsub (vz a) (vz b)).

(** Line 220: the three components of [offset] followed by [1]. *)
Definition offset_pixel (offset : Vec3 F) : Pixel F :=
  px (vx offset) (vy offset) (vz offset) fone.

(** [(quat.x, quat.y, quat.z, quat.w)]. *)
Definition quat_pixel (quat : Quat F) : Pixel F :=
  px (qx quat) (qy quat) (qz quat) (qw quat).

(** The frame matrix of a corner, lines 229-231 and 237. *)
Definition frame_matrix (l : MeshLoop F) : Mat3 F :=
  let N := normalized (normal l) in
  let T := normalized (tangent l) in
  let B := normalized (cross N T) in
  mkMat3 N T B.

(** Lines 229-241, the branch taken by [if 1:]. *)
Definition loop_quat (l0 l : MeshLoop F) : option (Quat F) :=
  let M0 := frame_matrix l0 in
  let M := frame_matrix l in
  Mi ← inverted M;
  Some (to_quaternion (matmul Mi M0)).

(** Lines 218-220: [for v in me.vertices], [index] being [v.index]. *)
Fixpoint write_offsets (original : list (MeshVertex F)) (vs : list (MeshVertex F))
    (index start_of_frame : nat) (offsets : list (Pixel F)) : option (list (Pixel F)) :=
  match vs with
  | [] => Some offsets
  | v :: rest =>
      v0 ← original !! index;
      offsets' ← np_set offsets (start_of_frame + index) (offset_pixel (vsub (co v) (co v0)));
      write_offsets original rest (S index) start_of_frame offsets'
  end.

(** Lines 224-251: [for l in me.loops], [index] being [l.index]. *)
Fixpoint write_rotations (originalL : list (MeshLoop F)) (ls : list (MeshLoop F))
    (index start_of_frame : nat) (normals : list (Pixel F)) : option (list (Pixel F)) :=
  match ls with
  | [] => Some normals
  | l :: rest =>
      l0 ← originalL !! index;
      quat ← loop_quat l0 l;
      normals' ← np_set normals (start_of_frame + vertex_index l) (quat_pixel quat);
      write_rotations originalL rest (S index) start_of_frame normals'
  end.

(** Lines 215-253: [for me in meshes]. *)
Fixpoint frames_loop (original : list (MeshVertex F)) (originalL : list (MeshLoop F))
    (meshes : list (Mesh F)) (start_of_frame : nat)
    (offsets normals : list (Pixel F)) : option (list (Pixel F) * list (Pixel F)) :=
  match meshes with
  | [] => Some (offsets, normals)
  | me :: rest =>
      offsets' ← write_offsets original (vertices me) 0 start_of_frame offsets;
      normals' ← write_rotations originalL (loops me) 0 start_of_frame normals;
      frames_loop original originalL rest (start_of_frame + length (vertices me))
        offsets' normals'
  end.

(** The two arrays before [flatten()]: rows are pixels. *)
Definition vertex_data_rows (meshes : list (Mesh F)) (vertex_count frame_count : Z)
    : option (list (Pixel F) * list (Pixel F)) :=
  match meshes with
  | [] => None
  | m0 :: _ =>
      let original := vertices m0 in
      let originalL := loops m0 in
      let n := (length original * length meshes + 1)%nat in
      offsets ← np_set (np_zeros n) 0 (header_pixel vertex_count frame_count);
      normals ← np_set (np_zeros n) 0 (header_pixel vertex_count frame_count);
      frames_loop original originalL meshes 1 offsets normals
  end.

(** [get_vertex_data]: [None] stands for a raised exception
    ([IndexError] on [meshes[0]] or on a slot out of range,
    [ValueError] from [inverted()]). *)
Definition get_vertex_data (meshes : list (Mesh F)) (vertex_count frame_count : Z)
    : option (list F * list F) :=
  '(offsets, normals) ← vertex_data_rows meshes vertex_count frame_count;
  Some (flatten offsets, flatten normals).

(** *** Well-formed input *)

(** A snapshot with [vertex_count] vertices and [corner_count] corners,
    every corner referring to one of its vertices. *)
Definition mesh_ok (vertex_count corner_count : nat) (me : Mesh F) : bool :=
  Nat.eqb (length (vertices me)) vertex_count &&
  Nat.eqb (length (loops me)) corner_count &&
  forallb (λ l, Nat.ltb (vertex_index l) vertex_count) (loops me).

(** A non-empty sequence of snapshots of one topology: all have
    [vertex_count] vertices and as many corners as frame 0. *)
Definition well_formed (meshes : list (Mesh F)) (vertex_count : nat) : bool :=
  match meshes with
  | [] => false
  | m0 :: _ => forallb (mesh_ok vertex_count (length (loops m0))) meshes
  end.

(** Corner [index], [index + 1], ... refer to vertex [index],
    [index + 1], ...: the correspondence the design assumes after the
    edge split. *)
Fixpoint corners_aligned (index : nat) (ls : list (MeshLoop F)) : bool :=
  match ls with
  | [] => true
  | l :: rest => Nat.eqb (vertex_index l) index && corners_aligned (S index) rest
  end.

Definition one_corner_per_vertex (meshes : list (Mesh F)) : bool :=
  forallb (λ me, corners_aligned 0 (loops me)) meshes.

(** [M.inverted()] does not raise on the frame matrix of the corner. *)
Definition frame_invertible (l : MeshLoop F) : bool :=
  match inverted (frame_matrix l) with Some _ => true | None => false end.

Definition frames_invertible (meshes : list (Mesh F)) : bool :=
  forallb (λ me, forallb frame_invertible (loops me)) meshes.

(** The identity matrix and the identity rotation [(w, x, y, z) = (1, 0, 0, 0)]. *)
Definition identity_matrix : Mat3 F :=
  mkMat3 (mkVec3 fone fzero fzero) (mkVec3 fzero fone fzero) (mkVec3 fzero fzero fone).

Definition identity_quaternion : Quat F := mkQuat fone fzero fzero fzero.

End Accumulator.

(** ** The layout packer and [execute] (lines 428-537) *)

Definition imageWidthGranularity : Z := 32.
Definition imageHeightGranularity : Z := 32.

(** [max(...)] of a generator; [ValueError] on an empty one. *)
Definition py_max (xs : list Z) : option Z :=
  match xs with
  | [] => None
  | x :: rest => Some (fold_left Z.max rest x)
  end.

(** [int(math.ceil(m / g) * g)].  The quotient [m / g] is a float; for
    the granularity 32, a power of two, it is exact on every integer
    below [2^53], so [math.ceil] returns the integer ceiling. *)
Definition round_up (m g : Z) : Z := (m + g - 1) / g * g.

Section Layout.
Context {F : Type} `{Scalar F} `{Mathutils F}.

(** A numpy array of shape [(imageHeight, imageWidth, 4)]: rows of pixels. *)
Definition grid_zeros (height width : nat) : list (list (Pixel F)) :=
  replicate height (replicate width zero_pixel).

(** [grid[y, x] = p]. *)
Definition grid_set (grid : list (list (Pixel F))) (y x : nat) (p : Pixel F)
    : option (list (list (Pixel F))) :=
  row ← grid !! y;
  row' ← np_set row x p;
  np_set grid y row'.

Definition grid_get (grid : list (list (Pixel F))) (y x : nat) : option (Pixel F) :=
  row ← grid !! y; row !! x.

(** [grid.flatten().tolist()]. *)
Definition grid_flatten (grid : list (list (Pixel F))) : list F :=
  flatten (concat grid).

Definition morton_x (idx : nat) : nat := Z.to_nat (Morton.DecodeMorton2X (Z.of_nat idx)).
Definition morton_y (idx : nat) : nat := Z.to_nat (Morton.DecodeMorton2Y (Z.of_nat idx)).

(** The cell of the grid that index [idx] is scattered to. *)
Definition cell (idx : nat) : nat * nat := (morton_y idx, morton_x idx).

(** A grid of [height] rows of [width] pixels. *)
Definition rect (height width : nat) (grid : list (list (Pixel F))) : Prop :=
  length grid = height /\ Forall (λ row, length row = width) grid.

(** Lines 500-504: the scatter loop over [range(num_elements)]. *)
Fixpoint zcurve_loop (offsets normals : list F) (idxs : list nat)
    (offsets_z_curved normals_z_curved : list (list (Pixel F)))
    : option (list (list (Pixel F)) * list (list (Pixel F))) :=
  match idxs with
  | [] => Some (offsets_z_curved, normals_z_curved)
  | idx :: rest =>
      let x := morton_x idx in
      let y := morton_y idx in
      po ← pixel_at offsets idx;
      offsets_z_curved' ← grid_set offsets_z_curved y x po;
      pn ← pixel_at normals idx;
      normals_z_curved' ← grid_set normals_z_curved y x pn;
      zcurve_loop offsets normals rest offsets_z_curved' normals_z_curved'
  end.

(** Lines 491-495: the two image dimensions for [num_elements] pixels. *)
Definition zcurve_size (num_elements : nat) : option (Z * Z) :=
  mx ← py_max (map (λ idx, Morton.DecodeMorton2X (Z.of_nat idx)) (seq 0 num_elements));
  my ← py_max (map (λ idx, Morton.DecodeMorton2Y (Z.of_nat idx)) (seq 0 num_elements));
  let max_x := mx + 1 in
  let max_y := my + 1 in
  Some (round_up max_x imageWidthGranularity, round_up max_y imageHeightGranularity).

(** Lines 487-511, the Z-curve branch. *)
Definition zcurve_layout (offsets normals : list F) : option (Z * Z * list F * list F) :=
  let num_elements := (length offsets / 4)%nat in
  '(imageWidth, imageHeight) ← zcurve_size num_elements;
  let zeros := grid_zeros (Z.to_nat imageHeight) (Z.to_nat imageWidth) in
  '(offsets_z_curved, normals_z_curved) ←
    zcurve_loop offsets normals (seq 0 num_elements) zeros zeros;
  Some (imageWidth, imageHeight, grid_flatten offsets_z_curved, grid_flatten normals_z_curved).

(** Lines 513-519, the linear branch: the header pixel is cut off. *)
Definition linear_layout (vertex_count frame_count : Z) (offsets normals : list F)
    : Z * Z * list F * list F :=
  (vertex_count, frame_count, drop 4 offsets, drop 4 normals).

(** What [execute] returns or hands to [bake_vertex_data]. *)
Inductive Outcome : Type :=
  | CANCELLED (why : Failure)
  | RAISED
  | FINISHED (imageWidth imageHeight : Z) (offsets normals : list F).

(** [execute], from the modifier check on.  [mods] lists the modifier
    types of the selected objects, [vertex_count] and [frame_count] are
    the two counts of lines 440-441, [meshes] is what
    [get_per_frame_mesh_data] returns and [zcurve] the scene setting. *)
Definition execute (mods : list string) (vertex_count frame_count : Z)
    (meshes : list (Mesh F)) (zcurve : bool) : Outcome :=
  match modifier_check mods with
  | Some why => CANCELLED why
  | None =>
    match capacity_check vertex_count frame_count with
    | Some why => CANCELLED why
    | None =>
      match get_vertex_data meshes vertex_count frame_count with
      | None => RAISED
      | Some (offsets, normals) =>
          if zcurve then
            match zcurve_layout offsets normals with
            | None => RAISED
            | Some (imageWidth, imageHeight, offsets', normals') =>
                FINISHED imageWidth imageHeight offsets' normals'
            end
          else
            let '(imageWidth, imageHeight, offsets', normals') :=
              linear_layout vertex_count frame_count offsets normals in
            FINISHED imageWidth imageHeight offsets' normals'
      end
    end
  end.

(** The pixel of an image at column [x] and row [y]: [Image.pixels] is
    the flat list of RGBA values, row after row, [width] pixels a row. *)
Definition image_cell (width : Z) (pixels : list F) (x y : Z) : option (Pixel F) :=
  pixel_at pixels (Z.to_nat (y * width + x)).

End Layout.

(** ** A reference instance on binary64 floats *)

(** The closed examples below run the encoder on concrete numbers.
    They use Rocq's binary64 floats with textbook linear algebra: the
    component-wise difference, the cross product, the inverse as the
    adjugate over the determinant, the row-by-column product and the
    conversion of a rotation matrix to a quaternion by its largest
    diagonal term.  [mathutils] computes in single precision; every
    number in the examples is [0], [1] or [-1], on which both
    precisions agree and every operation is exact. *)
Module FloatModel.

Local Open Scope float_scope.

Definition float_of_int (z : Z) : float :=
  match z with
  | Z0 => 0
  | Zpos _ => PrimFloat.of_uint63 (Uint63.of_Z z)
  | Zneg p => - PrimFloat.of_uint63 (Uint63.of_Z (Zpos p))
  end.

#[global] Instance float_scalar : Scalar float :=
  {| fzero := 0; fone := 1; of_int := float_of_int; fsub := PrimFloat.sub |}.

Definition dot (a b : Vec3 float) : float :=
  vx a * vx b + vy a * vy b + vz a * vz b.

Definition scale (k : float) (a : Vec3 float) : Vec3 float :=
  mkVec3 (k * vx a) (k * vy a) (k * vz a).

(** [Vector.normalized()]: the zero vector stays the zero vector. *)
Definition float_normalized (a : Vec3 float) : Vec3 float :=
  let d := dot a a in
  if 0 <? d then scale (1 / PrimFloat.sqrt d) a else mkVec3 0 0 0.

Definition float_cross (a b : Vec3 float) : Vec3 float :=
  mkVec3 (vy a * vz b - vz a * vy b)
         (vz a * vx b - vx a * vz b)
         (vx a * vy b - vy a * vx b).

Definition determinant (m : Mat3 float) : float :=
  dot (row0 m) (float_cross (row1 m) (row2 m)).

Definition transposed (m : Mat3 float) : Mat3 float :=
  mkMat3 (mkVec3 (vx (row0 m)) (vx (row1 m)) (vx (row2 m)))
         (mkVec3 (vy (row0 m)) (vy (row1 m)) (vy (row2 m)))
         (mkVec3 (vz (row0 m)) (vz (row1 m)) (vz (row2 m))).

(** [Matrix.inverted()]: the columns of the inverse are the cross
    products of the rows, over the determinant. *)
Definition float_inverted (m : Mat3 float) : option (Mat3 float) :=
  let det := determinant m in
  if det =? 0 then None
  else
    let k := 1 / det in
    Some (transposed (mkMat3 (scale k (float_cross (row1 m) (row2 m)))
                             (scale k (float_cross (row2 m) (row0 m)))
                             (scale k (float_cross (row0 m) (row1 m))))).

Definition float_matmul (a b : Mat3 float) : Mat3 float :=
  let bt := transposed b in
  let mulrow r := mkVec3 (dot r (row0 bt)) (dot r (row1 bt)) (dot r (row2 bt)) in
  mkMat3 (mulrow (row0 a)) (mulrow (row1 a)) (mulrow (row2 a)).

(** [Matrix.to_quaternion()] of a rotation matrix, [m_ij] being the
    entry of row [i] and column [j]. *)
Definition float_to_quaternion (m : Mat3 float) : Quat float :=
  let m00 := vx (row0 m) in let m01 := vy (row0 m) in let m02 := vz (row0 m) in
  let m10 := vx (row1 m) in let m11 := vy (row1 m) in let m12 := vz (row1 m) in
  let m20 := vx (row2 m) in let m21 := vy (row2 m) in let m22 := vz (row2 m) in
  let trace := m00 + m11 + m22 in
  if 0 <? trace then
    let s := 2 * PrimFloat.sqrt (trace + 1) in
    mkQuat (s / 4) ((m21 - m12) / s) ((m02 - m20) / s) ((m10 - m01) / s)
  else if (m11 <? m00) && (m22 <? m00) then
    let s := 2 * PrimFloat.sqrt (1 + m00 - m11 - m22) in
    mkQuat ((m21 - m12) / s) (s / 4) ((m01 + m10) / s) ((m02 + m20) / s)
  else if m22 <? m11 then
    let s := 2 * PrimFloat.sqrt (1 + m11 - m00 - m22) in
    mkQuat ((m02 - m20) / s) ((m01 + m10) / s) (s / 4) ((m12 + m21) / s)
  else
    let s := 2 * PrimFloat.sqrt (1 + m22 - m00 - m11) in
    mkQuat ((m10 - m01) / s) ((m02 + m20) / s) ((m12 + m21) / s) (s / 4).

#[global] Instance float_mathutils : Mathutils float :=
  {| normalized := float_normalized;
     cross := float_cross;
     inverted := float_inverted;
     matmul := float_matmul;
     to_quaternion := float_to_quaternion |}.

(** [==] on two pixels, channel by channel, as Python compares floats. *)
Definition pixel_eqb (p q : Pixel float) : bool :=
  (chan0 p =? chan0 q) && (chan1 p =? chan1 q) &&
  (chan2 p =? chan2 q) && (chan3 p =? chan3 q).

Definition vec (x y z : float) : Vec3 float := mkVec3 x y z.
Definition vertex (x y z : float) : MeshVertex float := mkVertex (vec x y z).

(** The example of the specification: three vertices, two frames, every
    vertex moved by one unit along z in frame 1; one corner per vertex
    with normal z and tangent x in both frames. *)
Definition example_corners : list (MeshLoop float) :=
  [ mkLoop 0%nat (vec 0 0 1) (vec 1 0 0);
    mkLoop 1%nat (vec 0 0 1) (vec 1 0 0);
    mkLoop 2%nat (vec 0 0 1) (vec 1 0 0) ].

Definition example_meshes : list (Mesh float) :=
  [ mkMesh [vertex 0 0 0; vertex 1 0 0; vertex 0 1 0] example_corners;
    mkMesh [vertex 0 0 1; vertex 1 0 1; vertex 0 1 1] example_corners ].

(** One vertex, one corner, two frames: the normal stays z while the
    tangent turns from x to -x, a half turn about the normal. *)
Definition half_turn_meshes : list (Mesh float) :=
  [ mkMesh [vertex 0 0 0] [mkLoop 0%nat (vec 0 0 1) (vec 1 0 0)];
    mkMesh [vertex 0 0 0] [mkLoop 0%nat (vec 0 0 1) (vec (-1) 0 0)] ].

(** Same normal in both frames, the tangent of frame 1 along the
    normal: the frame matrix of frame 1 has no inverse. *)
Definition singular_meshes : list (Mesh float) :=
  [ mkMesh [vertex 0 0 0] [mkLoop 0%nat (vec 0 0 1) (vec 1 0 0)];
    mkMesh [vertex 0 0 0] [mkLoop 0%nat (vec 0 0 1) (vec 0 0 1)] ].

(** Three frames of which the second has one vertex less than the
    others: frame 0 and frame 2 have two vertices, frame 1 has one. *)
Definition uneven_meshes : list (Mesh float) :=
  [ mkMesh [vertex 0 0 0; vertex 1 0 0] [];
    mkMesh [vertex 0 0 1] [];
    mkMesh [vertex 0 0 2; vertex 1 0 2] [] ].

(** Three vertices, three corners, two frames: corners 0 and 2 both
    refer to vertex 0, corner 1 to vertex 1, no corner to vertex 2.  In
    frame 1 the tangent of corner 2 is turned from x to -x. *)
Definition shared_corner_meshes : list (Mesh float) :=
  [ mkMesh [vertex 0 0 0; vertex 1 0 0; vertex 0 1 0]
      [ mkLoop 0%nat (vec 0 0 1) (vec 1 0 0);
        mkLoop 1%nat (vec 0 0 1) (vec 1 0 0);
        mkLoop 0%nat (vec 0 0 1) (vec 1 0 0) ];
    mkMesh [vertex 0 0 0; vertex 1 0 0; vertex 0 1 0]
      [ mkLoop 0%nat (vec 0 0 1) (vec 1 0 0);
        mkLoop 1%nat (vec 0 0 1) (vec 1 0 0);
        mkLoop 0%nat (vec 0 0 1) (vec (-1) 0 0) ] ].

End FloatModel.

(** ** Frame sampling: [frame_range] and [get_per_frame_mesh_data] *)

(** [len(range(start, stop, step))] for a non-zero step, as CPython
    computes it. *)
Definition range_length (start stop step : Z) : Z :=
  if 0 <? step then
    if start <? stop then 1 + (stop - 1 - start) / step else 0
  else
    if stop <? start then 1 + (start - 1 - stop) / (- step) else 0.

(** [list(range(start, stop, step))]; a zero step raises [ValueError]. *)
Definition py_range (start stop step : Z) : option (list Z) :=
  if step =? 0 then None
  else Some (map (λ k : nat, start + Z.of_nat k * step)
                 (seq 0 (Z.to_nat (range_length start stop step)))).

(** The part of [context.scene] the operator reads and writes. *)
Record Scene : Type := mkScene {
  frame_start : Z;
  frame_end : Z;
  frame_step : Z;
  frame_current : Z
}.

(** [frame_range] (lines 270-272). *)
Definition frame_range (scene : Scene) : option (list Z) :=
  py_range (frame_start scene) (frame_end scene + 1) (frame_step scene).

(** [scene.frame_set(i)]. *)
Definition frame_set (scene : Scene) (i : Z) : Scene :=
  mkScene (frame_start scene) (frame_end scene) (frame_step scene) i.

Section Sampling.
Context {F : Type} `{Scalar F} `{Mathutils F}.

(** [snapshot_at i] is the mesh that lines 156-168 build from the
    evaluated objects while the scene is at frame [i]; the evaluation is
    Blender's. *)
Variable snapshot_at : Z -> Mesh F.

(** Lines 154-169: [for i in frame_range(context.scene)]. *)
Fixpoint sample_frames (frames : list Z) (scene : Scene) (meshes : list (Mesh F))
    : list (Mesh F) * Scene :=
  match frames with
  | [] => (meshes, scene)
  | i :: rest =>
      let scene' := frame_set scene i in
      sample_frames rest scene' (meshes ++ [snapshot_at (frame_current scene')])
  end.

(** [get_per_frame_mesh_data] (lines 150-171): the meshes and the scene
    it leaves behind. *)
Definition get_per_frame_mesh_data (scene : Scene) : option (list (Mesh F) * Scene) :=
  let curFrame := frame_current scene in
  frames ← frame_range scene;
  let '(meshes, scene') := sample_frames frames scene [] in
  Some (meshes, frame_set scene' curFrame).

(** [execute] from line 440 on, with the scene: [object_vertices] lists
    [len(ob.data.vertices)] of the selected objects after the edge
    split.  The counts are taken before the checks, the frames are
    sampled after them. *)
Definition run_operator (mods : list string) (object_vertices : list nat)
    (scene : Scene) (zcurve : bool) : Outcome (F := F) * Scene :=
  match frame_range scene with
  | None => (RAISED, scene)
  | Some frames =>
      let vertex_count := Z.of_nat (foldr Nat.add 0%nat object_vertices) in
      let frame_count := Z.of_nat (length frames) in
      match modifier_check mods, capacity_check vertex_count frame_count with
      | Some why, _ => (CANCELLED why, scene)
      | None, Some why => (CANCELLED why, scene)
      | None, None =>
          match get_per_frame_mesh_data scene with
          | None => (RAISED, scene)
          | Some (meshes, scene') =>
              (execute mods vertex_count frame_count meshes zcurve, scene')
          end
      end
  end.

End Sampling.

(** ** The export mesh: [create_export_mesh_object] (lines 174-190) *)

Module ExportMesh.

(** Lines 181-182. *)
Definition vertIdx_LSH (vertex_index : Z) : Z := vertex_index mod 2048 - 2048.
Definition vertIdx_MSH (vertex_index : Z) : Z := vertex_index / 2048 - 2047.

(** The pair assigned to [uv_layer.data[loop.index].uv]. *)
Definition loop_uv (vertex_index : Z) : Z * Z :=
  (vertIdx_LSH vertex_index, vertIdx_MSH vertex_index).

(** The vertex index a pair stands for: the inverse of the two lines. *)
Definition uv_vertex_index (uv : Z * Z) : Z :=
  (snd uv + 2047) * 2048 + (fst uv + 2048).

Section Layers.
Context {F : Type} `{Scalar F}.

(** [fresh n] is the data of the layer [me.uv_layers.new()] creates when
    the mesh has [n] layers; its contents are Blender's. *)
Variable fresh : nat -> list (F * F).

(** Lines 176-177: [while len(me.uv_layers) < 2: me.uv_layers.new()].
    The loop body runs at most twice. *)
Fixpoint grow_uv_layers (fuel : nat) (uv_layers : list (list (F * F)))
    : list (list (F * F)) :=
  match fuel with
  | O => uv_layers
  | S fuel' =>
      if Nat.ltb (length uv_layers) 2
      then grow_uv_layers fuel' (uv_layers ++ [fresh (length uv_layers)])
      else uv_layers
  end.

(** Lines 180-187: [for loop in me.loops], [index] being [loop.index]. *)
Fixpoint write_uvs (ls : list (MeshLoop F)) (index : nat) (data : list (F * F))
    : option (list (F * F)) :=
  match ls with
  | [] => Some data
  | l :: rest =>
      let '(u, v) := loop_uv (Z.of_nat (vertex_index l)) in
      data' ← np_set data index (of_int u, of_int v);
      write_uvs rest (S index) data'
  end.

(** The UV layers of the export mesh: each layer is its [data], one
    pair a corner.  The name given to layer 1 is kept unique by
    Blender's collection and is not part of the model. *)
Definition create_export_mesh_object (uv_layers : list (list (F * F))) (me : Mesh F)
    : option (list (list (F * F))) :=
  let uv_layers' := grow_uv_layers 2 uv_layers in
  uv_layer ← uv_layers' !! 1%nat;
  data ← write_uvs (loops me) 0 uv_layer;
  np_set uv_layers' 1 data.

End Layers.

End ExportMesh.

(** ** The files [execute] writes (lines 525-529) *)

Record ExportSettings : Type := mkExportSettings {
  export_folder : string;
  export_file : string;
  gen_mesh : bool;
  do_file_export : bool
}.

(** The paths handed to [exportImage] and [exportMesh], in order. *)
Definition export_paths (settings : ExportSettings) : list string :=
  if do_file_export settings then
    let base := (export_folder settings ++ export_file settings)%string in
    [ (base ++ "_map.exr")%string; (base ++ "_normal.exr")%string ] ++
    (if gen_mesh settings then [ (base ++ "_mesh.fbx")%string ] else [])
  else [].

(** ** Hard edges: the selection loop of [split_edges_by_normal] (lines 96-129) *)

Module SplitEdges.



Section Selection.
Context {F : Type}.

(** [sharper_than_1e_5 n1 n2] is [n1.angle(n2) > 1e-5]; [None] when
    [angle] raises [ValueError] on a zero-length vector. *)
Variable sharper_than_1e_5 : Vec3 F -> Vec3 F -> option bool.







End Selection.





End SplitEdges.

(** ** Where a frame starts *)

(** The number of vertices of the snapshots before frame [f]: what
    [start_of_frame - 1] is when the loop of line 215 reaches frame [f]. *)
Definition vertices_before {F : Type} (meshes : list (Mesh F)) (f : nat) : nat :=
  foldr (λ me total, (length (vertices me) + total)%nat) 0%nat (take f meshes).

(** ** Corners that share a vertex *)

(** The last corner of [ls] that refers to vertex [v], with its index,
    [index] being the index of the first corner of [ls]. *)
Fixpoint last_corner {F : Type} (ls : list (MeshLoop F)) (index v : nat)
    : option (nat * MeshLoop F) :=
  match ls with
  | [] => None
  | l :: rest =>
      match last_corner rest (S index) v with
      | Some found => Some found
      | None => if Nat.eqb (vertex_index l) v then Some (index, l) else None
      end
  end.

(** * Properties *)

(** ** The Morton index mapper, bit by bit *)

Module MortonFacts.
Import Morton.

Lemma shiftr_bit (a n m : Z) : 0 <= m -> Z.testbit (Z.shiftr a n) m = Z.testbit a (m + n).
Proof. apply Z.shiftr_spec. Qed.

(** Pushes [Z.testbit] through the masks and shifts of one decoder. *)
Ltac push_testbit :=
  repeat first
    [ rewrite Z.land_spec
    | rewrite Z.lor_spec
    | rewrite shiftr_bit by (vm_compute; discriminate) ].

Ltac settle_bits :=
  push_testbit; cbn;
  rewrite ?andb_true_r, ?andb_false_r, ?orb_false_r, ?orb_false_l;
  reflexivity.

Lemma below_16 (i : Z) : 0 <= i < 16 ->
  i = 0 \/ i = 1 \/ i = 2 \/ i = 3 \/ i = 4 \/ i = 5 \/ i = 6 \/ i = 7 \/
  i = 8 \/ i = 9 \/ i = 10 \/ i = 11 \/ i = 12 \/ i = 13 \/ i = 14 \/ i = 15.
Proof. lia. Qed.

Lemma low16_high_bits (a i : Z) : 16 <= i -> Z.testbit (Z.land a 0x0000FFFF) i = false.
Proof.
  intros Hi. rewrite Z.land_spec.
  change 0x0000FFFF with (Z.ones 16).
  rewrite Z.ones_spec_high by lia. apply andb_false_r.
Qed.

Lemma DecodeMorton2X_low (code i : Z) :
  0 <= i < 16 -> Z.testbit (DecodeMorton2X code) i = Z.testbit code (2 * i).
Proof.
  intros Hi. unfold DecodeMorton2X.
  destruct (below_16 i Hi) as [-> | Hr]; [settle_bits |].
  repeat (destruct Hr as [-> | Hr]; [settle_bits |]).
  subst i. settle_bits.
Qed.

Lemma DecodeMorton2Y_low (code i : Z) :
  0 <= i < 16 -> Z.testbit (DecodeMorton2Y code) i = Z.testbit code (2 * i + 1).
Proof.
  intros Hi. unfold DecodeMorton2Y.
  destruct (below_16 i Hi) as [-> | Hr]; [settle_bits |].
  repeat (destruct Hr as [-> | Hr]; [settle_bits |]).
  subst i. settle_bits.
Qed.

Lemma DecodeMorton2X_high (code i : Z) : 16 <= i -> Z.testbit (DecodeMorton2X code) i = false.
Proof. intros Hi. unfold DecodeMorton2X. cbv zeta. now apply low16_high_bits. Qed.

Lemma DecodeMorton2Y_high (code i : Z) : 16 <= i -> Z.testbit (DecodeMorton2Y code) i = false.
Proof. intros Hi. unfold DecodeMorton2Y. cbv zeta. now apply low16_high_bits. Qed.

(** Every bit of the two results, for every integer [code]. *)
Lemma DecodeMorton2X_testbit (code i : Z) :
  0 <= i -> Z.testbit (DecodeMorton2X code) i = (i <? 16) && Z.testbit code (2 * i).
Proof.
  intros Hi. destruct (Z.ltb_spec i 16).
  - now rewrite DecodeMorton2X_low by lia.
  - now rewrite DecodeMorton2X_high by lia.
Qed.

Lemma DecodeMorton2Y_testbit (code i : Z) :
  0 <= i -> Z.testbit (DecodeMorton2Y code) i = (i <? 16) && Z.testbit code (2 * i + 1).
Proof.
  intros Hi. destruct (Z.ltb_spec i 16).
  - now rewrite DecodeMorton2Y_low by lia.
  - now rewrite DecodeMorton2Y_high by lia.
Qed.

Lemma low16_range (a : Z) : 0 <= Z.land a 0x0000FFFF <= 0xFFFF.
Proof.
  assert (Hmod : Z.land a 0x0000FFFF = a mod 2 ^ 16) by (apply (Z.land_ones a 16); lia).
  rewrite Hmod. change (2 ^ 16) with 65536.
  pose proof (Z.mod_pos_bound a 65536 ltac:(lia)). lia.
Qed.

Lemma DecodeMorton2X_range (code : Z) : 0 <= DecodeMorton2X code <= 0xFFFF.
Proof. unfold DecodeMorton2X. cbv zeta. apply low16_range. Qed.

Lemma DecodeMorton2Y_range (code : Z) : 0 <= DecodeMorton2Y code <= 0xFFFF.
Proof. unfold DecodeMorton2Y. cbv zeta. apply low16_range. Qed.

(** A non-negative integer whose bits from [n] on are clear is below [2^n]. *)
Lemma clear_high_bits_bound (a n : Z) :
  0 <= n -> 0 <= a -> (forall i, n <= i -> Z.testbit a i = false) -> a < 2 ^ n.
Proof.
  intros Hn Ha Hbits.
  assert (Heq : a = a mod 2 ^ n).
  { apply Z.bits_inj'. intros i Hi. destruct (Z.lt_ge_cases i n).
    - now rewrite Z.mod_pow2_bits_low.
    - rewrite Z.mod_pow2_bits_high by lia. now apply Hbits. }
  rewrite Heq. apply Z.mod_pos_bound. lia.
Qed.

Lemma bounded_high_bits (a n i : Z) : 0 <= a < 2 ^ n -> n <= i -> Z.testbit a i = false.
Proof.
  intros Ha Hi. destruct (Z.eq_dec a 0) as [-> | Hne]; [apply Z.bits_0 |].
  apply Z.bits_above_log2; [lia |].
  assert (Z.log2 a < n); [| lia].
  apply Z.log2_lt_pow2; lia.
Qed.

(** A code below [2^(2k)] decodes into the square of side [2^k]. *)
Lemma DecodeMorton2X_bound (code k : Z) :
  0 <= k -> 0 <= code < 2 ^ (2 * k) -> DecodeMorton2X code < 2 ^ k.
Proof.
  intros Hk Hc. apply clear_high_bits_bound; [lia | apply DecodeMorton2X_range |].
  intros i Hi. rewrite DecodeMorton2X_testbit by lia.
  rewrite (bounded_high_bits code (2 * k)) by lia. apply andb_false_r.
Qed.

Lemma DecodeMorton2Y_bound (code k : Z) :
  0 <= k -> 0 <= code < 2 ^ (2 * k) -> DecodeMorton2Y code < 2 ^ k.
Proof.
  intros Hk Hc. apply clear_high_bits_bound; [lia | apply DecodeMorton2Y_range |].
  intros i Hi. rewrite DecodeMorton2Y_testbit by lia.
  rewrite (bounded_high_bits code (2 * k)) by lia. apply andb_false_r.
Qed.

(** Below [2^32] the pair of results determines the code. *)
Lemma MortonDecode_inj (c d : Z) :
  0 <= c < 2 ^ 32 -> 0 <= d < 2 ^ 32 -> MortonDecode c = MortonDecode d -> c = d.
Proof.
  intros Hc Hd Heq. unfold MortonDecode in Heq.
  injection Heq as Hx Hy.
  apply Z.bits_inj'. intros n Hn.
  destruct (Z.lt_ge_cases n 32) as [Hlt | Hge].
  - destruct (Z.Even_or_Odd n) as [[i ->] | [i ->]].
    + rewrite <- !DecodeMorton2X_low by lia. now rewrite Hx.
    + rewrite <- !DecodeMorton2Y_low by lia. now rewrite Hy.
  - now rewrite !(bounded_high_bits _ 32) by lia.
Qed.

End MortonFacts.

(** ** The header codec *)

Module HeaderFacts.
Import Header.

Lemma decode_MSH_LSH (n : Z) : decode (MSH n) (LSH n) = n.
Proof.
  unfold decode, MSH, LSH.
  pose proof (Z.div_mod n 2048 ltac:(lia)). lia.
Qed.

(** The stored channel of the frame count alone gives it modulo 2048. *)
Lemma decode_LSH_only (n : Z) : decode (MSH 0) (LSH n) = n mod 2048.
Proof. unfold decode, MSH, LSH. change (0 / 2048) with 0. lia. Qed.

Lemma LSH_period (n k : Z) : LSH (n + 2048 * k) = LSH n.
Proof.
  unfold LSH. f_equal.
  rewrite (Z.mul_comm 2048 k). apply Z.mod_add. lia.
Qed.

Lemma header_ints_period (vertex_count frame_count k : Z) :
  header_ints vertex_count (frame_count + 2048 * k) = header_ints vertex_count frame_count.
Proof. unfold header_ints. now rewrite LSH_period. Qed.

End HeaderFacts.

(** ** The capacity checks *)

Module CapacityFacts.

Lemma capacity_check_cases (vertex_count frame_count : Z) :
  (vertex_count > 4096 * 4095 /\
     capacity_check vertex_count frame_count = Some VertexLimitExceeded) \/
  (vertex_count <= 4096 * 4095 /\ frame_count > 4096 /\
     capacity_check vertex_count frame_count = Some FrameLimitExceeded) \/
  (vertex_count <= 4096 * 4095 /\ frame_count <= 4096 /\
     frame_count * vertex_count + 1 > 8192 * 8192 /\
     capacity_check vertex_count frame_count = Some PixelBudgetExceeded) \/
  (vertex_count <= 4096 * 4095 /\ frame_count <= 4096 /\
     frame_count * vertex_count + 1 <= 8192 * 8192 /\
     capacity_check vertex_count frame_count = None).
Proof.
  unfold capacity_check.
  destruct (Z.gtb_spec vertex_count (4096 * 4095)); [left; split; [lia | reflexivity] | right].
  destruct (Z.gtb_spec frame_count 4096);
    [left; split; [lia | split; [lia | reflexivity]] | right].
  destruct (Z.gtb_spec (frame_count * vertex_count + 1) (8192 * 8192));
    [left | right]; (split; [lia | split; [lia | split; [lia | reflexivity]]]).
Qed.

Lemma capacity_check_pass (vertex_count frame_count : Z) :
  capacity_check vertex_count frame_count = None <->
  vertex_count <= 4096 * 4095 /\ frame_count <= 4096 /\
  frame_count * vertex_count + 1 <= 8192 * 8192.
Proof.
  destruct (capacity_check_cases vertex_count frame_count)
    as [[? ->] | [(? & ? & ->) | [(? & ? & ? & ->) | (? & ? & ? & ->)]]];
    split; try discriminate; try lia; intros; auto.
Qed.

End CapacityFacts.

(** ** Arrays, slices and flattening *)

Section ArrayFacts.
Context {A : Type}.

Lemma np_set_Some (arr arr' : list A) (i : nat) (x : A) :
  np_set arr i x = Some arr' -> (i < length arr)%nat /\ arr' = <[i:=x]> arr.
Proof. unfold np_set. destruct (decide _); intros Heq; [now inversion Heq | discriminate]. Qed.

Lemma np_set_in_range (arr : list A) (i : nat) (x : A) :
  (i < length arr)%nat -> np_set arr i x = Some (<[i:=x]> arr).
Proof. intros Hi. unfold np_set. destruct (decide _); [reflexivity | contradiction]. Qed.

Lemma np_set_length (arr arr' : list A) (i : nat) (x : A) :
  np_set arr i x = Some arr' -> length arr' = length arr.
Proof. intros [_ ->]%np_set_Some. apply length_insert. Qed.

Lemma np_set_same (arr arr' : list A) (i : nat) (x : A) :
  np_set arr i x = Some arr' -> arr' !! i = Some x.
Proof. intros [Hi ->]%np_set_Some. now apply list_lookup_insert_eq. Qed.

Lemma np_set_other (arr arr' : list A) (i j : nat) (x : A) :
  np_set arr i x = Some arr' -> i <> j -> arr' !! j = arr !! j.
Proof. intros [_ ->]%np_set_Some Hne. now apply list_lookup_insert_ne. Qed.

End ArrayFacts.

Section FlattenFacts.
Context {F : Type}.

Lemma flatten_cons (p : Pixel F) (buf : list (Pixel F)) :
  flatten (p :: buf) = chan0 p :: chan1 p :: chan2 p :: chan3 p :: flatten buf.
Proof. reflexivity. Qed.

Lemma flatten_length (buf : list (Pixel F)) : length (flatten buf) = (4 * length buf)%nat.
Proof.
  induction buf as [| p buf IH]; [reflexivity |].
  rewrite flatten_cons. cbn [length]. rewrite IH. lia.
Qed.

(** Reading pixel [idx] of a flattened array gives back row [idx]. *)
Lemma pixel_at_flatten (buf : list (Pixel F)) (idx : nat) :
  pixel_at (flatten buf) idx = buf !! idx.
Proof.
  revert idx. induction buf as [| p buf IH]; intros idx.
  - unfold pixel_at. cbn. now rewrite drop_nil.
  - destruct idx as [| idx].
    + rewrite flatten_cons. unfold pixel_at. cbn. now destruct p.
    + rewrite flatten_cons. cbn [lookup list_lookup]. rewrite <- IH.
      unfold pixel_at. replace (4 * S idx)%nat with (S (S (S (S (4 * idx))))) by lia.
      reflexivity.
Qed.

Lemma flatten_div4 (buf : list (Pixel F)) : (length (flatten buf) / 4)%nat = length buf.
Proof.
  rewrite flatten_length, Nat.mul_comm. apply Nat.div_mul. discriminate.
Qed.

End FlattenFacts.

(** ** The frame delta accumulator *)

Section AccumulatorFacts.
Context {F : Type} `{Scalar F} `{Mathutils F}.

(** Splits a successful monadic step of the encoder into its parts. *)
Ltac step_in Hrun x E :=
  cbn in Hrun;
  match type of Hrun with
  | context [mbind _ ?m] =>
      destruct m as [x |] eqn:E; cbn in Hrun; [| discriminate Hrun]
  end.

Lemma write_offsets_spec (original vs : list (MeshVertex F)) :
  forall (index start : nat) (offs offs' : list (Pixel F)),
  write_offsets original vs index start offs = Some offs' ->
  length offs' = length offs /\
  (forall k v, vs !! k = Some v ->
     exists v0, original !! (index + k)%nat = Some v0 /\
       offs' !! (start + (index + k))%nat = Some (offset_pixel (vsub (co v) (co v0)))) /\
  (forall s, (s < start + index)%nat -> offs' !! s = offs !! s).
Proof.
  induction vs as [| v rest IH]; intros index start offs offs' Hrun.
  - cbn in Hrun. inversion Hrun; subst. split; [reflexivity | split].
    + intros k v Hk. now rewrite lookup_nil in Hk.
    + auto.
  - step_in Hrun v0 Ev0. step_in Hrun offs1 Eoffs1.
    destruct (IH _ _ _ _ Hrun) as (Hlen & Hslots & Hbelow).
    split; [| split].
    + rewrite Hlen. eapply np_set_length; eauto.
    + intros [| k] w Hk.
      * cbn in Hk. inversion Hk; subst w. exists v0. rewrite Nat.add_0_r.
        split; [assumption |].
        rewrite Hbelow by lia. eapply np_set_same; eauto.
      * cbn in Hk. destruct (Hslots k w Hk) as (w0 & Hw0 & Hslot).
        exists w0. replace (index + S k)%nat with (S index + k)%nat by lia. auto.
    + intros s Hs. rewrite Hbelow by lia.
      eapply np_set_other; eauto. lia.
Qed.

Lemma write_offsets_total (original vs : list (MeshVertex F)) :
  forall (index start : nat) (offs : list (Pixel F)),
  (index + length vs <= length original)%nat ->
  (start + index + length vs <= length offs)%nat ->
  is_Some (write_offsets original vs index start offs).
Proof.
  induction vs as [| v rest IH]; intros index start offs Ho Hb; cbn [write_offsets].
  - eauto.
  - cbn [length] in Ho, Hb.
    destruct (lookup_lt_is_Some_2 original index ltac:(lia)) as [v0 ->]. cbn.
    rewrite np_set_in_range by lia. cbn.
    apply IH; [lia | rewrite length_insert; lia].
Qed.

(** Whatever the corners refer to, a frame leaves the slots below its
    start untouched. *)
Lemma write_rotations_below (originalL ls : list (MeshLoop F)) :
  forall (index start : nat) (norms norms' : list (Pixel F)),
  write_rotations originalL ls index start norms = Some norms' ->
  length norms' = length norms /\
  (forall s, (s < start)%nat -> norms' !! s = norms !! s).
Proof.
  induction ls as [| l rest IH]; intros index start norms norms' Hrun.
  - cbn in Hrun. inversion Hrun; subst. auto.
  - step_in Hrun l0 El0. step_in Hrun quat Equat. step_in Hrun norms1 Enorms1.
    destruct (IH _ _ _ _ Hrun) as (Hlen & Hbelow).
    split.
    + rewrite Hlen. eapply np_set_length; eauto.
    + intros s Hs. rewrite Hbelow by lia. eapply np_set_other; eauto. lia.
Qed.

Lemma corners_aligned_lookup (ls : list (MeshLoop F)) :
  forall (index k : nat) (l : MeshLoop F),
  corners_aligned index ls = true -> ls !! k = Some l -> vertex_index l = (index + k)%nat.
Proof.
  induction ls as [| l0 rest IH]; intros index k l Hal Hk.
  - now rewrite lookup_nil in Hk.
  - cbn in Hal. apply andb_true_iff in Hal as [Hhd Htl].
    destruct k as [| k]; cbn in Hk.
    + inversion Hk; subst. apply Nat.eqb_eq in Hhd. lia.
    + rewrite (IH (S index) k l Htl Hk). lia.
Qed.

(** With one corner per vertex the rotations fill the slots of the
    frame one after the other, as the offsets do. *)
Lemma write_rotations_spec (originalL ls : list (MeshLoop F)) :
  forall (index start : nat) (norms norms' : list (Pixel F)),
  corners_aligned index ls = true ->
  write_rotations originalL ls index start norms = Some norms' ->
  (forall k l, ls !! k = Some l ->
     exists l0 quat, originalL !! (index + k)%nat = Some l0 /\
       loop_quat l0 l = Some quat /\
       norms' !! (start + (index + k))%nat = Some (quat_pixel quat)) /\
  (forall s, (s < start + index)%nat -> norms' !! s = norms !! s).
Proof.
  induction ls as [| l rest IH]; intros index start norms norms' Hal Hrun.
  - cbn in Hrun. inversion Hrun; subst. split; [| auto].
    intros k l Hk. now rewrite lookup_nil in Hk.
  - cbn in Hal. apply andb_true_iff in Hal as [Hhd Htl]. apply Nat.eqb_eq in Hhd.
    step_in Hrun l0 El0. step_in Hrun quat Equat. step_in Hrun norms1 Enorms1.
    rewrite Hhd in *.
    destruct (IH _ _ _ _ Htl Hrun) as (Hslots & Hbelow).
    split.
    + intros [| k] w Hk.
      * cbn in Hk. inversion Hk; subst w. exists l0, quat. rewrite Nat.add_0_r.
        split; [assumption | split; [assumption |]].
        rewrite Hbelow by lia. eapply np_set_same; eauto.
      * cbn in Hk. destruct (Hslots k w Hk) as (w0 & wq & Hw0 & Hq & Hslot).
        exists w0, wq. replace (index + S k)%nat with (S index + k)%nat by lia. auto.
    + intros s Hs. rewrite Hbelow by lia. eapply np_set_other; eauto. lia.
Qed.

Lemma write_rotations_total (originalL ls : list (MeshLoop F)) :
  forall (index start : nat) (norms : list (Pixel F)),
  (index + length ls <= length originalL)%nat ->
  forallb frame_invertible ls = true ->
  Forall (λ l, (start + vertex_index l < length norms)%nat) ls ->
  is_Some (write_rotations originalL ls index start norms).
Proof.
  induction ls as [| l rest IH]; intros index start norms Ho Hinv Hb; cbn [write_rotations].
  - eauto.
  - cbn [length] in Ho. cbn in Hinv. apply andb_true_iff in Hinv as [Hhd Htl].
    inversion Hb as [| ? ? Hbl Hbrest]; subst.
    destruct (lookup_lt_is_Some_2 originalL index ltac:(lia)) as [l0 ->]. cbn.
    unfold loop_quat, frame_invertible in *.
    destruct (inverted (frame_matrix l)) as [Mi |]; [| discriminate]. cbn.
    rewrite np_set_in_range by lia. cbn.
    apply IH; [lia | assumption |].
    eapply Forall_impl; [exact Hbrest |]. cbn. intros ? ?. rewrite length_insert. lia.
Qed.

Lemma mesh_ok_inv (vertex_count corner_count : nat) (me : Mesh F) :
  mesh_ok vertex_count corner_count me = true ->
  length (vertices me) = vertex_count /\ length (loops me) = corner_count /\
  Forall (λ l, (vertex_index l < vertex_count)%nat) (loops me).
Proof.
  unfold mesh_ok. intros Hok.
  apply andb_true_iff in Hok as [Hok Hidx]. apply andb_true_iff in Hok as [Hv Hl].
  apply Nat.eqb_eq in Hv, Hl. repeat split; try assumption.
  apply Forall_forall. intros l Hl'.
  rewrite forallb_forall in Hidx. apply Nat.ltb_lt, Hidx.
  now apply list_elem_of_In.
Qed.

(** The frames never touch a slot below the start of the first one. *)
Lemma frames_loop_below (original : list (MeshVertex F)) (originalL : list (MeshLoop F))
    (meshes : list (Mesh F)) :
  forall (start : nat) (offs norms offs' norms' : list (Pixel F)),
  frames_loop original originalL meshes start offs norms = Some (offs', norms') ->
  length offs' = length offs /\ length norms' = length norms /\
  (forall s, (s < start)%nat -> offs' !! s = offs !! s /\ norms' !! s = norms !! s).
Proof.
  induction meshes as [| me rest IH]; intros start offs norms offs' norms' Hrun.
  - cbn in Hrun. inversion Hrun; subst. auto.
  - step_in Hrun offs1 Eoffs1. step_in Hrun norms1 Enorms1.
    destruct (IH _ _ _ _ _ Hrun) as (Hlo & Hln & Hbelow).
    destruct (write_offsets_spec _ _ _ _ _ _ Eoffs1) as (Hlo1 & _ & Hbo1).
    destruct (write_rotations_below _ _ _ _ _ _ Enorms1) as (Hln1 & Hbn1).
    split; [congruence | split; [congruence |]].
    intros s Hs. destruct (Hbelow s ltac:(lia)) as [-> ->].
    split; [apply Hbo1; lia | apply Hbn1; lia].
Qed.

Lemma frames_loop_spec (original : list (MeshVertex F)) (originalL : list (MeshLoop F))
    (vertex_count corner_count : nat) (meshes : list (Mesh F)) :
  forall (start : nat) (offs norms offs' norms' : list (Pixel F)),
  forallb (mesh_ok vertex_count corner_count) meshes = true ->
  frames_loop original originalL meshes start offs norms = Some (offs', norms') ->
  (forall f me v p, meshes !! f = Some me -> vertices me !! v = Some p ->
     exists p0, original !! v = Some p0 /\
       offs' !! (start + f * vertex_count + v)%nat
         = Some (offset_pixel (vsub (co p) (co p0)))) /\
  (forall f me c l, meshes !! f = Some me -> corners_aligned 0 (loops me) = true ->
     loops me !! c = Some l ->
     exists l0 quat, originalL !! c = Some l0 /\ loop_quat l0 l = Some quat /\
       norms' !! (start + f * vertex_count + c)%nat = Some (quat_pixel quat)).
Proof.
  induction meshes as [| me rest IH]; intros start offs norms offs' norms' Hok Hrun.
  - split; intros f me; intros; now rewrite lookup_nil in *.
  - cbn in Hok. apply andb_true_iff in Hok as [Hme Hrest].
    apply mesh_ok_inv in Hme as (Hvc & _ & Hidx).
    step_in Hrun offs1 Eoffs1. step_in Hrun norms1 Enorms1.
    destruct (IH _ _ _ _ _ Hrest Hrun) as (IHo & IHn).
    destruct (frames_loop_below _ _ _ _ _ _ _ _ Hrun) as (_ & _ & Hbelow).
    destruct (write_offsets_spec _ _ _ _ _ _ Eoffs1) as (_ & Hso & _).
    split.
    + intros [| f] m v p Hm Hv; cbn in Hm.
      * inversion Hm; subst m. destruct (Hso v p Hv) as (p0 & Hp0 & Hslot).
        exists p0. split; [assumption |].
        apply lookup_lt_Some in Hv.
        destruct (Hbelow (start + 0 * vertex_count + v)%nat ltac:(lia)) as [-> _].
        rewrite <- Hslot. f_equal. lia.
      * destruct (IHo f m v p Hm Hv) as (p0 & Hp0 & Hslot).
        exists p0. split; [assumption |]. rewrite <- Hslot. f_equal. rewrite Hvc. lia.
    + intros [| f] m c l Hm Hal Hc; cbn in Hm.
      * inversion Hm; subst m.
        destruct (write_rotations_spec _ _ _ _ _ _ Hal Enorms1) as (Hsn & _).
        destruct (Hsn c l Hc) as (l0 & quat & Hl0 & Hq & Hslot).
        exists l0, quat. split; [assumption | split; [assumption |]].
        assert (Hlt : (c < vertex_count)%nat).
        { rewrite Forall_forall in Hidx.
          pose proof (Hidx l ltac:(eapply list_elem_of_lookup_2; eauto)) as Hl.
          now rewrite (corners_aligned_lookup _ _ _ _ Hal Hc) in Hl. }
        destruct (Hbelow (start + 0 * vertex_count + c)%nat ltac:(lia)) as [_ ->].
        rewrite <- Hslot. f_equal. lia.
      * destruct (IHn f m c l Hm Hal Hc) as (l0 & quat & Hl0 & Hq & Hslot).
        exists l0, quat. split; [assumption | split; [assumption |]].
        rewrite <- Hslot. f_equal. rewrite Hvc. lia.
Qed.

Lemma frames_loop_total (original : list (MeshVertex F)) (originalL : list (MeshLoop F))
    (meshes : list (Mesh F)) :
  forall (start : nat) (offs norms : list (Pixel F)),
  forallb (mesh_ok (length original) (length originalL)) meshes = true ->
  frames_invertible meshes = true ->
  (start + length meshes * length original <= length offs)%nat ->
  length norms = length offs ->
  is_Some (frames_loop original originalL meshes start offs norms).
Proof.
  induction meshes as [| me rest IH]; intros start offs norms Hok Hinv Hroom Hlen;
    cbn [frames_loop].
  - eauto.
  - cbn in Hok, Hinv, Hroom.
    apply andb_true_iff in Hok as [Hme Hrest]. apply andb_true_iff in Hinv as [Hime Hirest].
    apply mesh_ok_inv in Hme as (Hvc & Hcc & Hidx).
    destruct (write_offsets_total original (vertices me) 0 start offs ltac:(lia) ltac:(lia))
      as [offs1 Eoffs1].
    rewrite Eoffs1. cbn.
    assert (Hb : Forall (λ l, (start + vertex_index l < length norms)%nat) (loops me)).
    { eapply Forall_impl; [exact Hidx |]. cbn. intros l Hl. lia. }
    destruct (write_rotations_total originalL (loops me) 0 start norms ltac:(lia) Hime Hb)
      as [norms1 Enorms1].
    rewrite Enorms1. cbn.
    destruct (write_offsets_spec _ _ _ _ _ _ Eoffs1) as (Hlo1 & _ & _).
    destruct (write_rotations_below _ _ _ _ _ _ Enorms1) as (Hln1 & _).
    apply IH; [assumption | assumption | lia | congruence].
Qed.

Lemma well_formed_inv (meshes : list (Mesh F)) (vertex_count : nat) :
  well_formed meshes vertex_count = true ->
  exists m0 rest, meshes = m0 :: rest /\ length (vertices m0) = vertex_count /\
    forallb (mesh_ok vertex_count (length (loops m0))) meshes = true.
Proof.
  destruct meshes as [| m0 rest]; [discriminate |].
  intros Hwf. exists m0, rest. unfold well_formed in Hwf.
  split; [reflexivity | split; [| assumption]].
  cbn in Hwf. apply andb_true_iff in Hwf as [Hm0 _].
  now apply mesh_ok_inv in Hm0 as (? & _ & _).
Qed.

Lemma vertex_data_rows_unfold (m0 : Mesh F) (rest : list (Mesh F)) (hv hf : Z) :
  vertex_data_rows (m0 :: rest) hv hf =
  frames_loop (vertices m0) (loops m0) (m0 :: rest) 1
    (<[0%nat:=header_pixel hv hf]> (np_zeros (length (vertices m0) * length (m0 :: rest) + 1)))
    (<[0%nat:=header_pixel hv hf]> (np_zeros (length (vertices m0) * length (m0 :: rest) + 1))).
Proof.
  unfold vertex_data_rows.
  rewrite np_set_in_range by (unfold np_zeros; rewrite length_replicate; lia).
  reflexivity.
Qed.

Lemma header_row_length (n : nat) (hv hf : Z) :
  length (<[0%nat:=header_pixel hv hf]> (np_zeros (n + 1))) = (n + 1)%nat.
Proof. rewrite length_insert. apply length_replicate. Qed.

Lemma header_row_first (n : nat) (hv hf : Z) :
  <[0%nat:=header_pixel hv hf]> (np_zeros (n + 1)) !! 0%nat = Some (header_pixel hv hf).
Proof.
  apply list_lookup_insert_eq. unfold np_zeros. rewrite length_replicate. lia.
Qed.

(** Row 0 of both arrays is the header, on every call that returns. *)
Lemma vertex_data_rows_header (meshes : list (Mesh F)) (hv hf : Z)
    (offs norms : list (Pixel F)) :
  vertex_data_rows meshes hv hf = Some (offs, norms) ->
  offs !! 0%nat = Some (header_pixel hv hf) /\ norms !! 0%nat = Some (header_pixel hv hf) /\
  exists m0, meshes !! 0%nat = Some m0 /\
    length offs = (length (vertices m0) * length meshes + 1)%nat /\
    length norms = (length (vertices m0) * length meshes + 1)%nat.
Proof.
  destruct meshes as [| m0 rest]; [discriminate |].
  rewrite vertex_data_rows_unfold. intros Hrun.
  destruct (frames_loop_below _ _ _ _ _ _ _ _ Hrun) as (Hlo & Hln & Hbelow).
  destruct (Hbelow 0%nat ltac:(lia)) as [-> ->].
  rewrite header_row_first.
  split; [reflexivity | split; [reflexivity |]].
  exists m0. split; [reflexivity |].
  rewrite Hlo, Hln, header_row_length. auto.
Qed.

Lemma vertex_data_rows_spec (meshes : list (Mesh F)) (vertex_count : nat) (hv hf : Z)
    (offs norms : list (Pixel F)) :
  well_formed meshes vertex_count = true ->
  vertex_data_rows meshes hv hf = Some (offs, norms) ->
  (forall f me m0 v p p0, meshes !! f = Some me -> meshes !! 0%nat = Some m0 ->
     vertices me !! v = Some p -> vertices m0 !! v = Some p0 ->
     offs !! (1 + f * vertex_count + v)%nat = Some (offset_pixel (vsub (co p) (co p0)))) /\
  (forall f me m0 c l l0, meshes !! f = Some me -> meshes !! 0%nat = Some m0 ->
     corners_aligned 0 (loops me) = true ->
     loops me !! c = Some l -> loops m0 !! c = Some l0 ->
     exists quat, loop_quat l0 l = Some quat /\
       norms !! (1 + f * vertex_count + c)%nat = Some (quat_pixel quat)).
Proof.
  intros Hwf Hrun.
  destruct (well_formed_inv _ _ Hwf) as (m0 & rest & -> & Hvc & Hok).
  rewrite vertex_data_rows_unfold in Hrun.
  destruct (frames_loop_spec _ _ _ _ _ _ _ _ _ _ Hok Hrun) as (Ho & Hn).
  split.
  - intros f me m0' v p p0 Hme Hm0 Hv Hv0. cbn in Hm0. inversion Hm0; subst m0'.
    destruct (Ho f me v p Hme Hv) as (q0 & Hq0 & Hslot).
    rewrite Hv0 in Hq0. inversion Hq0; subst q0. exact Hslot.
  - intros f me m0' c l l0 Hme Hm0 Hal Hc Hc0. cbn in Hm0. inversion Hm0; subst m0'.
    destruct (Hn f me c l Hme Hal Hc) as (k0 & quat & Hk0 & Hq & Hslot).
    rewrite Hc0 in Hk0. inversion Hk0; subst k0. eauto.
Qed.

Lemma vertex_data_rows_total (meshes : list (Mesh F)) (vertex_count : nat) (hv hf : Z) :
  well_formed meshes vertex_count = true ->
  frames_invertible meshes = true ->
  is_Some (vertex_data_rows meshes hv hf).
Proof.
  intros Hwf Hinv.
  destruct (well_formed_inv _ _ Hwf) as (m0 & rest & -> & Hvc & Hok).
  rewrite vertex_data_rows_unfold.
  apply frames_loop_total.
  - now rewrite Hvc.
  - assumption.
  - rewrite header_row_length. lia.
  - now rewrite !header_row_length.
Qed.

(** The same facts on the flattened arrays [get_vertex_data] returns. *)
Lemma get_vertex_data_rows (meshes : list (Mesh F)) (hv hf : Z) (offsets normals : list F) :
  get_vertex_data meshes hv hf = Some (offsets, normals) ->
  exists offs norms, vertex_data_rows meshes hv hf = Some (offs, norms) /\
    offsets = flatten offs /\ normals = flatten norms.
Proof.
  unfold get_vertex_data. intros Hrun.
  destruct (vertex_data_rows meshes hv hf) as [[offs norms] |]; [| discriminate].
  cbn in Hrun. inversion Hrun; subst. eauto.
Qed.

Lemma get_vertex_data_total (meshes : list (Mesh F)) (vertex_count : nat) (hv hf : Z) :
  well_formed meshes vertex_count = true ->
  frames_invertible meshes = true ->
  is_Some (get_vertex_data meshes hv hf).
Proof.
  intros Hwf Hinv. unfold get_vertex_data.
  destruct (vertex_data_rows_total meshes vertex_count hv hf Hwf Hinv) as [[offs norms] ->].
  cbn. eauto.
Qed.

End AccumulatorFacts.

(** ** Offsets and rotations in the buffers *)

Lemma one_corner_per_vertex_lookup {F : Type} (meshes : list (Mesh F)) (f : nat) (me : Mesh F) :
  one_corner_per_vertex meshes = true -> meshes !! f = Some me ->
  corners_aligned 0 (loops me) = true.
Proof.
  unfold one_corner_per_vertex. rewrite forallb_forall. intros Hall Hme.
  apply Hall, list_elem_of_In. eapply list_elem_of_lookup_2; eauto.
Qed.

(** C1.  With well-formed snapshots of [vertex_count] vertices each,
    frame 0 being the reference, [get_vertex_data] returns whenever no
    frame matrix is singular, and in what it returns the offset pixel
    at slot [1 + f*vertex_count + v] is the component-wise difference
    of the position of vertex [v] in frame [f] and in frame 0, with
    fourth component 1.  On the example of the specification (three
    vertices, two frames, every vertex lifted by one unit in frame 1)
    slots 4, 5 and 6 hold (0,0,1,1). *)
Theorem offsets_hold_position_deltas :
  (forall (F : Type) (SF : Scalar F) (MF : Mathutils F)
      (meshes : list (Mesh F)) (vertex_count : nat) (hv hf : Z),
      well_formed meshes vertex_count = true ->
      (frames_invertible meshes = true -> is_Some (get_vertex_data meshes hv hf)) /\
      forall offsets normals,
        get_vertex_data meshes hv hf = Some (offsets, normals) ->
        forall (f v : nat) (snapshot reference : Mesh F) (p p0 : MeshVertex F),
          meshes !! f = Some snapshot -> meshes !! 0%nat = Some reference ->
          vertices snapshot !! v = Some p -> vertices reference !! v = Some p0 ->
          pixel_at offsets (1 + f * vertex_count + v)%nat =
            Some (px (fsub (vx (co p)) (vx (co p0)))
                     (fsub (vy (co p)) (vy (co p0)))
                     (fsub (vz (co p)) (vz (co p0)))
                     fone)) /\
  (exists offsets normals,
      get_vertex_data FloatModel.example_meshes 3 2 = Some (offsets, normals) /\
      pixel_at offsets 4 = Some (px 0 0 1 1)%float /\
      pixel_at offsets 5 = Some (px 0 0 1 1)%float /\
      pixel_at offsets 6 = Some (px 0 0 1 1)%float).
Proof.
  split.
  - intros F SF MF meshes vertex_count hv hf Hwf. split.
    + intros Hinv. now apply (get_vertex_data_total meshes vertex_count).
    + intros offsets normals Hrun f v snapshot reference p p0 Hf H0 Hv Hv0.
      destruct (get_vertex_data_rows _ _ _ _ _ Hrun) as (offs & norms & Hrows & -> & ->).
      rewrite pixel_at_flatten.
      destruct (vertex_data_rows_spec _ _ _ _ _ _ Hwf Hrows) as (Ho & _).
      exact (Ho f snapshot reference v p p0 Hf H0 Hv Hv0).
  - eexists _, _. split; [vm_compute; reflexivity |].
    repeat split; reflexivity.
Qed.

Lemma offsets_hold_position_deltas_witness :
  well_formed FloatModel.example_meshes 3 = true /\
  exists offsets normals,
    get_vertex_data FloatModel.example_meshes 3 2 = Some (offsets, normals) /\
    pixel_at offsets (1 + 1 * 3 + 1)%nat =
      Some (px (fsub 1 1) (fsub 0 0) (fsub 1 0) fone)%float.
Proof.
  split; [reflexivity |].
  destruct (proj1 offsets_hold_position_deltas float _ _
              FloatModel.example_meshes 3%nat 3 2 eq_refl) as [Hreturns Hslots].
  destruct (Hreturns eq_refl) as [[offsets normals] Hrun].
  exists offsets, normals. split; [exact Hrun |].
  apply (Hslots offsets normals Hrun 1%nat 1%nat
           (mkMesh [FloatModel.vertex 0 0 1; FloatModel.vertex 1 0 1; FloatModel.vertex 0 1 1]
                   FloatModel.example_corners)
           (mkMesh [FloatModel.vertex 0 0 0; FloatModel.vertex 1 0 0; FloatModel.vertex 0 1 0]
                   FloatModel.example_corners)
           (FloatModel.vertex 1 0 1) (FloatModel.vertex 1 0 0))%float; reflexivity.
Defined.

(** C2.  With well-formed snapshots in which corner [c] refers to
    vertex [c], in what [get_vertex_data] returns the rotation pixel at
    slot [1 + f*vertex_count + c] is [(q.x, q.y, q.z, q.w)] for the
    quaternion [q] that [to_quaternion] gives for [M^-1 @ M0], [M0]
    having the rows [N0; T0; B0] of the reference corner and [M] the
    rows [N; T; B] of the snapshot corner; the call returns whenever no
    frame matrix is singular. *)
Theorem rotations_hold_relative_quaternions
    (F : Type) (SF : Scalar F) (MF : Mathutils F)
    (meshes : list (Mesh F)) (vertex_count : nat) (hv hf : Z) :
  well_formed meshes vertex_count = true ->
  one_corner_per_vertex meshes = true ->
  (frames_invertible meshes = true -> is_Some (get_vertex_data meshes hv hf)) /\
  forall offsets normals,
    get_vertex_data meshes hv hf = Some (offsets, normals) ->
    forall (f c : nat) (snapshot reference : Mesh F) (l l0 : MeshLoop F),
      meshes !! f = Some snapshot -> meshes !! 0%nat = Some reference ->
      loops snapshot !! c = Some l -> loops reference !! c = Some l0 ->
      let N0 := normalized (normal l0) in
      let T0 := normalized (tangent l0) in
      let B0 := normalized (cross N0 T0) in
      let N := normalized (normal l) in
      let T := normalized (tangent l) in
      let B := normalized (cross N T) in
      let M0 := mkMat3 N0 T0 B0 in
      let M := mkMat3 N T B in
      vertex_index l = c /\
      exists Mi, inverted M = Some Mi /\
        let q := to_quaternion (matmul Mi M0) in
        pixel_at normals (1 + f * vertex_count + c)%nat = Some (px (qx q) (qy q) (qz q) (qw q)).
Proof.
  intros Hwf Hone. split.
  - intros Hinv. now apply (get_vertex_data_total meshes vertex_count).
  - intros offsets normals Hrun f c snapshot reference l l0 Hf H0 Hc Hc0.
    pose proof (one_corner_per_vertex_lookup _ _ _ Hone Hf) as Hal.
    cbv zeta. split; [apply (corners_aligned_lookup _ _ _ _ Hal Hc) |].
    destruct (get_vertex_data_rows _ _ _ _ _ Hrun) as (offs & norms & Hrows & -> & ->).
    rewrite pixel_at_flatten.
    destruct (vertex_data_rows_spec _ _ _ _ _ _ Hwf Hrows) as (_ & Hn).
    destruct (Hn f snapshot reference c l l0 Hf H0 Hal Hc Hc0) as (quat & Hq & Hslot).
    unfold loop_quat, frame_matrix in Hq.
    destruct (inverted _) as [Mi |] eqn:EMi; [| discriminate].
    cbn in Hq. inversion Hq; subst quat.
    exists Mi. split; [reflexivity | exact Hslot].
Qed.

Lemma rotations_hold_relative_quaternions_witness :
  exists offsets normals,
    get_vertex_data FloatModel.half_turn_meshes 1 2 = Some (offsets, normals) /\
    pixel_at normals (1 + 1 * 1 + 0)%nat = Some (px 0 0 1 0)%float.
Proof.
  destruct (rotations_hold_relative_quaternions float _ _
              FloatModel.half_turn_meshes 1%nat 1 2 eq_refl eq_refl) as [Hreturns Hslots].
  destruct (Hreturns eq_refl) as [[offsets normals] Hrun].
  exists offsets, normals. split; [exact Hrun |].
  destruct (Hslots offsets normals Hrun 1%nat 0%nat
              (mkMesh [FloatModel.vertex 0 0 0]
                      [mkLoop 0%nat (FloatModel.vec 0 0 1) (FloatModel.vec (-1) 0 0)])
              (mkMesh [FloatModel.vertex 0 0 0]
                      [mkLoop 0%nat (FloatModel.vec 0 0 1) (FloatModel.vec 1 0 0)])
              (mkLoop 0%nat (FloatModel.vec 0 0 1) (FloatModel.vec (-1) 0 0))
              (mkLoop 0%nat (FloatModel.vec 0 0 1) (FloatModel.vec 1 0 0))
              eq_refl eq_refl eq_refl eq_refl)%float as (_ & Mi & HMi & Hslot).
  vm_compute in HMi. inversion HMi; subst Mi. exact Hslot.
Defined.

(** C3, as the code has it.  The branch taken by [if 1:] has no
    special case for equal normals: the stored quaternion is always the
    conversion of [M^-1 @ M0].  When the normal and the tangent of the
    snapshot corner both equal those of the reference corner, so that
    [M = M0], and [M] has an inverse, the stored pixel is (0,0,0,1) as
    soon as [M^-1 @ M] is the identity matrix and the identity matrix
    converts to the identity quaternion. *)
Theorem equal_frames_store_identity
    (F : Type) (SF : Scalar F) (MF : Mathutils F)
    (meshes : list (Mesh F)) (vertex_count : nat) (hv hf : Z)
    (offsets normals : list F)
    (f c : nat) (snapshot reference : Mesh F) (l l0 : MeshLoop F) (Mi : Mat3 F) :
  well_formed meshes vertex_count = true ->
  one_corner_per_vertex meshes = true ->
  get_vertex_data meshes hv hf = Some (offsets, normals) ->
  meshes !! f = Some snapshot -> meshes !! 0%nat = Some reference ->
  loops snapshot !! c = Some l -> loops reference !! c = Some l0 ->
  normal l = normal l0 -> tangent l = tangent l0 ->
  inverted (frame_matrix l) = Some Mi ->
  matmul Mi (frame_matrix l) = identity_matrix ->
  to_quaternion identity_matrix = identity_quaternion ->
  pixel_at normals (1 + f * vertex_count + c)%nat = Some (px fzero fzero fzero fone).
Proof.
  intros Hwf Hone Hrun Hf H0 Hc Hc0 HN HT HMi Hid Hq.
  pose proof (one_corner_per_vertex_lookup _ _ _ Hone Hf) as Hal.
  destruct (get_vertex_data_rows _ _ _ _ _ Hrun) as (offs & norms & Hrows & -> & ->).
  rewrite pixel_at_flatten.
  destruct (vertex_data_rows_spec _ _ _ _ _ _ Hwf Hrows) as (_ & Hn).
  destruct (Hn f snapshot reference c l l0 Hf H0 Hal Hc Hc0) as (quat & Hquat & Hslot).
  rewrite Hslot. unfold loop_quat in Hquat. rewrite HMi in Hquat. cbn in Hquat.
  assert (HM0 : frame_matrix l0 = frame_matrix l)
    by (unfold frame_matrix; now rewrite HN, HT).
  rewrite HM0, Hid, Hq in Hquat. inversion Hquat; subst quat. reflexivity.
Qed.

Lemma equal_frames_store_identity_witness :
  exists offsets normals,
    get_vertex_data FloatModel.example_meshes 3 2 = Some (offsets, normals) /\
    pixel_at normals (1 + 1 * 3 + 2)%nat = Some (px 0 0 0 1)%float.
Proof.
  destruct (get_vertex_data FloatModel.example_meshes 3 2) as [[offsets normals] |] eqn:Hrun;
    [| vm_compute in Hrun; discriminate Hrun].
  exists offsets, normals. split; [reflexivity |].
  exact (equal_frames_store_identity float _ _ FloatModel.example_meshes 3%nat 3 2
           offsets normals 1%nat 2%nat
           (mkMesh [FloatModel.vertex 0 0 1; FloatModel.vertex 1 0 1; FloatModel.vertex 0 1 1]
                   FloatModel.example_corners)
           (mkMesh [FloatModel.vertex 0 0 0; FloatModel.vertex 1 0 0; FloatModel.vertex 0 1 0]
                   FloatModel.example_corners)
           (mkLoop 2%nat (FloatModel.vec 0 0 1) (FloatModel.vec 1 0 0))
           (mkLoop 2%nat (FloatModel.vec 0 0 1) (FloatModel.vec 1 0 0))
           (mkMat3 (FloatModel.vec 0 1 0) (FloatModel.vec 0 0 1) (FloatModel.vec 1 0 0))
           eq_refl eq_refl Hrun eq_refl eq_refl eq_refl eq_refl eq_refl eq_refl
           eq_refl eq_refl eq_refl)%float.
Defined.

(** C3 as stated fails.  In [half_turn_meshes] the corner keeps its
    normal z from frame 0 to frame 1 while its tangent turns from x to
    -x: the stored pixel is (0,0,1,0), not (0,0,0,1).  In
    [singular_meshes] the normal is kept too and the tangent of frame 1
    lies along it: [inverted()] raises and no buffer is returned. *)
Lemma equal_normals_not_special_cased :
  let l0 := mkLoop 0%nat (FloatModel.vec 0 0 1) (FloatModel.vec 1 0 0) in
  let l := mkLoop 0%nat (FloatModel.vec 0 0 1) (FloatModel.vec (-1) 0 0) in
  FloatModel.half_turn_meshes =
    [mkMesh [FloatModel.vertex 0 0 0] [l0]; mkMesh [FloatModel.vertex 0 0 0] [l]] /\
  normal l = normal l0 /\
  well_formed FloatModel.half_turn_meshes 1 = true /\
  one_corner_per_vertex FloatModel.half_turn_meshes = true /\
  (exists offsets normals,
      get_vertex_data FloatModel.half_turn_meshes 1 2 = Some (offsets, normals) /\
      pixel_at normals (1 + 1 * 1 + 0)%nat = Some (px 0 0 1 0)%float /\
      pixel_at normals (1 + 1 * 1 + 0)%nat <> Some (px 0 0 0 1)%float) /\
  FloatModel.pixel_eqb (px 0 0 1 0)%float (px 0 0 0 1)%float = false /\
  get_vertex_data FloatModel.singular_meshes 1 2 = None.
Proof.
  cbv zeta.
  split; [reflexivity |]. split; [reflexivity |].
  split; [reflexivity |]. split; [reflexivity |].
  split; [| split; reflexivity].
  destruct (get_vertex_data FloatModel.half_turn_meshes 1 2) as [[offsets normals] |] eqn:Hrun;
    [| vm_compute in Hrun; discriminate Hrun].
  exists offsets, normals. split; [reflexivity |].
  vm_compute in Hrun. inversion Hrun; subst offsets normals.
  split; [reflexivity |].
  intros Heq. vm_compute in Heq.
  apply (f_equal (fun p => match p with Some q => PrimFloat.eqb (chan2 q) 1 | None => false end))
    in Heq.
  vm_compute in Heq. discriminate Heq.
Qed.

(** ** The header pixel *)

Lemma get_vertex_data_header {F : Type} `{Scalar F} `{Mathutils F}
    (meshes : list (Mesh F)) (vertex_count frame_count : Z) (offsets normals : list F) :
  get_vertex_data meshes vertex_count frame_count = Some (offsets, normals) ->
  pixel_at offsets 0 = Some (header_pixel vertex_count frame_count) /\
  pixel_at normals 0 = Some (header_pixel vertex_count frame_count).
Proof.
  intros Hrun.
  destruct (get_vertex_data_rows _ _ _ _ _ Hrun) as (offs & norms & Hrows & -> & ->).
  rewrite !pixel_at_flatten.
  destruct (vertex_data_rows_header _ _ _ _ _ Hrows) as (Ho & Hn & _). auto.
Qed.

(** C4, as the code has it.  In what [get_vertex_data] returns, pixel 0
    of both buffers stores the three header integers; the decode rule
    applied to the first two gives back [vertex_count] exactly; the
    third, the only stored part of the frame count, gives back
    [frame_count] modulo 2048, hence [frame_count] itself exactly when
    it is below 2048. *)
Theorem header_round_trip
    (F : Type) (SF : Scalar F) (MF : Mathutils F)
    (meshes : list (Mesh F)) (vertex_count frame_count : Z) (offsets normals : list F) :
  get_vertex_data meshes vertex_count frame_count = Some (offsets, normals) ->
  let '(msh, lsh, frame_lsh) := Header.header_ints vertex_count frame_count in
  pixel_at offsets 0 = Some (px (of_int msh) (of_int lsh) (of_int frame_lsh) fone) /\
  pixel_at normals 0 = Some (px (of_int msh) (of_int lsh) (of_int frame_lsh) fone) /\
  Header.decode msh lsh = vertex_count /\
  Header.decode (Header.MSH 0) frame_lsh = frame_count mod 2048 /\
  (0 <= frame_count < 2048 -> Header.decode (Header.MSH 0) frame_lsh = frame_count).
Proof.
  intros Hrun. unfold Header.header_ints.
  destruct (get_vertex_data_header _ _ _ _ _ Hrun) as [Ho Hn].
  split; [exact Ho | split; [exact Hn |]].
  split; [apply HeaderFacts.decode_MSH_LSH |].
  split; [apply HeaderFacts.decode_LSH_only |].
  intros Hfc. rewrite HeaderFacts.decode_LSH_only. now apply Z.mod_small.
Qed.

Lemma header_round_trip_witness :
  exists offsets normals,
    get_vertex_data FloatModel.example_meshes 3 2 = Some (offsets, normals) /\
    pixel_at offsets 0 = Some (px (-2048) (-2045) (-2046) 1)%float /\
    Header.decode (-2048) (-2045) = 3 /\
    Header.decode (Header.MSH 0) (-2046) = 2.
Proof.
  destruct (get_vertex_data FloatModel.example_meshes 3 2) as [[offsets normals] |] eqn:Hrun;
    [| vm_compute in Hrun; discriminate Hrun].
  exists offsets, normals. split; [reflexivity |].
  pose proof (header_round_trip float _ _ FloatModel.example_meshes 3 2 offsets normals Hrun)
    as (Ho & _ & Hv & _ & Hf).
  split; [exact Ho | split; [exact Hv | apply Hf; lia]].
Defined.

(** C4 as stated fails.  The inputs [(vertex_count, frame_count)]
    [(1, 1)] and [(1, 2049)] both pass the capacity checks and both
    frame counts lie in [0, 4095], yet they produce the same header, so
    no decoding of the header recovers both frame counts; the decode
    rule on the stored channel gives 1 for 2049. *)
Lemma header_loses_frame_count_above_2047 :
  capacity_check 1 1 = None /\ capacity_check 1 2049 = None /\
  0 <= 2049 <= 4095 /\
  Header.header_ints 1 2049 = Header.header_ints 1 1 /\
  @header_pixel float _ 1 2049 = @header_pixel float _ 1 1 /\
  (forall decode_frame_count : Z * Z * Z -> Z,
      decode_frame_count (Header.header_ints 1 1) = 1 ->
      decode_frame_count (Header.header_ints 1 2049) <> 2049) /\
  (let '(_, _, frame_lsh) := Header.header_ints 1 2049 in
   Header.decode (Header.MSH 0) frame_lsh = 1).
Proof.
  split; [reflexivity |]. split; [reflexivity |]. split; [lia |].
  split; [reflexivity |]. split; [reflexivity |]. split; [| reflexivity].
  intros decode_frame_count H1 H2049.
  change (Header.header_ints 1 2049) with (Header.header_ints 1 1) in H2049.
  rewrite H1 in H2049. discriminate H2049.
Qed.

(** C5.  In what [get_vertex_data] returns, pixel 0 of the offset
    buffer and pixel 0 of the rotation buffer are the same tuple
    [(vertex_count_MSH, vertex_count_LSH, frame_count_LSH, 1)] with
    [MSH = n // 2048 - 2048] and [LSH = n % 2048 - 2048]; the pixel does
    not depend on [frame_count // 2048], so [frame_count_MSH] is not in
    it. *)
Theorem header_pixel_layout
    (F : Type) (SF : Scalar F) (MF : Mathutils F)
    (meshes : list (Mesh F)) (vertex_count frame_count : Z) (offsets normals : list F) :
  get_vertex_data meshes vertex_count frame_count = Some (offsets, normals) ->
  pixel_at offsets 0 =
    Some (px (of_int (vertex_count / 2048 - 2048)) (of_int (vertex_count mod 2048 - 2048))
             (of_int (frame_count mod 2048 - 2048)) fone) /\
  pixel_at normals 0 = pixel_at offsets 0 /\
  forall k : Z,
    @header_pixel F SF vertex_count (frame_count + 2048 * k) =
    @header_pixel F SF vertex_count frame_count.
Proof.
  intros Hrun. destruct (get_vertex_data_header _ _ _ _ _ Hrun) as [Ho Hn].
  split; [exact Ho | split; [now rewrite Ho, Hn |]].
  intros k. unfold header_pixel. now rewrite HeaderFacts.header_ints_period.
Qed.

Lemma header_pixel_layout_witness :
  exists offsets normals,
    get_vertex_data FloatModel.example_meshes 3 2 = Some (offsets, normals) /\
    pixel_at offsets 0 = Some (px (-2048) (-2045) (-2046) 1)%float /\
    pixel_at normals 0 = pixel_at offsets 0.
Proof.
  destruct (get_vertex_data FloatModel.example_meshes 3 2) as [[offsets normals] |] eqn:Hrun;
    [| vm_compute in Hrun; discriminate Hrun].
  exists offsets, normals. split; [reflexivity |].
  pose proof (header_pixel_layout float _ _ FloatModel.example_meshes 3 2 offsets normals Hrun)
    as (Ho & Hn & _).
  split; [exact Ho | exact Hn].
Defined.

(** ** The capacity validator *)

(** C6.  The vertex check passes 4096*4095 and fails 4096*4095 + 1 with
    [VertexLimitExceeded]; the frame check passes 4096 and fails 4097
    with [FrameLimitExceeded]; among the inputs that pass both, the
    ones rejected with [PixelBudgetExceeded] are exactly those with
    [frame_count*vertex_count + 1 > 8192*8192], and no input over the
    pixel budget is accepted; the three failures are distinct; and
    whenever a check fails [execute] returns cancelled with that
    failure, whatever the meshes are, so no buffer is produced. *)
Theorem capacity_validator_boundaries :
  (forall frame_count,
      capacity_check (4096 * 4095) frame_count <> Some VertexLimitExceeded) /\
  capacity_check (4096 * 4095) 4 = None /\
  (forall frame_count,
      capacity_check (4096 * 4095 + 1) frame_count = Some VertexLimitExceeded) /\
  (forall vertex_count,
      capacity_check vertex_count 4096 <> Some FrameLimitExceeded) /\
  capacity_check 16383 4096 = None /\
  (forall vertex_count, vertex_count <= 4096 * 4095 ->
      capacity_check vertex_count 4097 = Some FrameLimitExceeded) /\
  (forall vertex_count frame_count,
      vertex_count <= 4096 * 4095 -> frame_count <= 4096 ->
      (capacity_check vertex_count frame_count = Some PixelBudgetExceeded <->
       frame_count * vertex_count + 1 > 8192 * 8192)) /\
  (forall vertex_count frame_count,
      frame_count * vertex_count + 1 > 8192 * 8192 ->
      capacity_check vertex_count frame_count <> None) /\
  (VertexLimitExceeded <> FrameLimitExceeded /\
   VertexLimitExceeded <> PixelBudgetExceeded /\
   FrameLimitExceeded <> PixelBudgetExceeded) /\
  (forall (F : Type) (SF : Scalar F) (MF : Mathutils F)
      (mods : list string) (vertex_count frame_count : Z)
      (meshes : list (Mesh F)) (zcurve : bool) (why : Failure),
      modifier_check mods = None ->
      capacity_check vertex_count frame_count = Some why ->
      execute mods vertex_count frame_count meshes zcurve = CANCELLED why).
Proof.
  split; [| split; [reflexivity | split; [| split; [| split; [reflexivity |]]]]].
  - intros fc.
    destruct (CapacityFacts.capacity_check_cases (4096 * 4095) fc)
      as [[? ->] | [(? & ? & ->) | [(? & ? & ? & ->) | (? & ? & ? & ->)]]];
      try discriminate; lia.
  - intros fc. reflexivity.
  - intros vc.
    destruct (CapacityFacts.capacity_check_cases vc 4096)
      as [[? ->] | [(? & ? & ->) | [(? & ? & ? & ->) | (? & ? & ? & ->)]]];
      try discriminate; lia.
  - split; [| split; [| split; [| split]]].
    + intros vc Hvc.
      destruct (CapacityFacts.capacity_check_cases vc 4097)
        as [[? ->] | [(? & ? & ->) | [(? & ? & ? & ->) | (? & ? & ? & ->)]]];
        try reflexivity; lia.
    + intros vc fc Hvc Hfc.
      destruct (CapacityFacts.capacity_check_cases vc fc)
        as [[? ->] | [(? & ? & ->) | [(? & ? & ? & ->) | (? & ? & ? & ->)]]];
        split; intros; try discriminate; try reflexivity; lia.
    + intros vc fc Hover Hnone.
      apply CapacityFacts.capacity_check_pass in Hnone. lia.
    + split; [discriminate | split; discriminate].
    + intros F SF MF mods vc fc meshes zcurve why Hmods Hcap.
      unfold execute. now rewrite Hmods, Hcap.
Qed.

Lemma capacity_validator_boundaries_witness :
  capacity_check 100 4097 = Some FrameLimitExceeded /\
  capacity_check 16384 4096 = Some PixelBudgetExceeded /\
  execute [] 16384 4096 FloatModel.example_meshes true = CANCELLED PixelBudgetExceeded.
Proof.
  pose proof capacity_validator_boundaries
    as (_ & _ & _ & _ & _ & Hframe & Hbudget & _ & _ & Hexec).
  split; [apply Hframe; lia |].
  assert (Hb : capacity_check 16384 4096 = Some PixelBudgetExceeded)
    by (apply Hbudget; lia).
  split; [exact Hb |].
  apply Hexec; [reflexivity | exact Hb].
Defined.

(** ** The Morton decode *)

(** C7, as the code has it.  For every code in [0, 2^32), bit [i] of
    [DecodeMorton2X code] is bit [2*i] of the code and bit [i] of
    [DecodeMorton2Y code] is bit [2*i + 1] of the code: x is the integer
    formed by the even-position bits and y the one formed by the
    odd-position bits.  The codes 0, 1, 2, 3 decode to (0,0), (1,0),
    (0,1), (1,1). *)
Theorem morton_decode_deinterleaves (code : Z) :
  0 <= code < 2 ^ 32 ->
  (forall i, 0 <= i ->
     Z.testbit (Morton.DecodeMorton2X code) i = Z.testbit code (2 * i) /\
     Z.testbit (Morton.DecodeMorton2Y code) i = Z.testbit code (2 * i + 1)) /\
  Morton.MortonDecode 0 = (0, 0) /\ Morton.MortonDecode 1 = (1, 0) /\
  Morton.MortonDecode 2 = (0, 1) /\ Morton.MortonDecode 3 = (1, 1).
Proof.
  intros Hcode. split; [| repeat split; reflexivity].
  intros i Hi.
  rewrite MortonFacts.DecodeMorton2X_testbit, MortonFacts.DecodeMorton2Y_testbit by lia.
  destruct (Z.ltb_spec i 16); [now rewrite !andb_true_l |].
  rewrite !andb_false_l.
  now rewrite !(MortonFacts.bounded_high_bits code 32) by lia.
Qed.

Lemma morton_decode_deinterleaves_witness :
  Z.testbit (Morton.DecodeMorton2X 0xB6) 2 = Z.testbit 0xB6 4 /\
  Z.testbit (Morton.DecodeMorton2Y 0xB6) 2 = Z.testbit 0xB6 5.
Proof.
  apply (proj1 (morton_decode_deinterleaves 0xB6 ltac:(lia)) 2 ltac:(lia)).
Defined.

(** C7 as stated fails for codes of more than 32 bits: bit 32 of the
    code [2^32] is an even-position bit, so the integer formed by the
    even-position bits is [2^16], but the masks keep 32 bits only and
    [DecodeMorton2X] returns 0. *)
Lemma morton_decode_drops_bits_above_31 :
  0 <= 2 ^ 32 /\
  Z.testbit (2 ^ 32) (2 * 16) = true /\
  Z.testbit (Morton.DecodeMorton2X (2 ^ 32)) 16 = false /\
  Morton.DecodeMorton2X (2 ^ 32) = 0 /\
  Morton.MortonDecode (2 ^ 32) = Morton.MortonDecode 0.
Proof. repeat split; (lia || reflexivity). Qed.

(** ** The layout packer *)

Module LayoutFacts.

Lemma fold_max_spec (xs : list Z) :
  forall a, a <= fold_left Z.max xs a /\
    Forall (λ x, x <= fold_left Z.max xs a) xs /\
    (fold_left Z.max xs a = a \/ fold_left Z.max xs a ∈ xs).
Proof.
  induction xs as [| x xs IH]; intros a; cbn [fold_left].
  - repeat split; [lia | constructor | now left].
  - destruct (IH (Z.max a x)) as (Hge & Hall & Hin).
    split; [lia | split].
    + constructor; [lia | assumption].
    + destruct Hin as [Heq | Hin].
      * rewrite Heq. destruct (Z.max_spec a x) as [[_ ->] | [_ ->]];
          [right; constructor | now left].
      * right. now constructor.
Qed.

Lemma py_max_spec (xs : list Z) (m : Z) :
  py_max xs = Some m -> m ∈ xs /\ Forall (λ x, x <= m) xs.
Proof.
  destruct xs as [| x xs]; [discriminate |]. cbn. intros Hm. inversion Hm; subst m.
  destruct (fold_max_spec xs x) as (Hge & Hall & Hin). split.
  - destruct Hin as [-> | Hin]; [constructor | now constructor].
  - constructor; assumption.
Qed.

(** [round_up m 32] is the least multiple of 32 that is at least [m]. *)
Lemma round_up_32 (m : Z) :
  round_up m 32 mod 32 = 0 /\ m <= round_up m 32 < m + 32.
Proof.
  unfold round_up. split; [apply Z.mod_mul; lia |].
  pose proof (Z.div_mod (m + 32 - 1) 32 ltac:(lia)).
  pose proof (Z.mod_pos_bound (m + 32 - 1) 32 ltac:(lia)). lia.
Qed.

Lemma round_up_32_le (m b : Z) : m <= b -> b mod 32 = 0 -> round_up m 32 <= b.
Proof.
  intros Hm Hb. destruct (round_up_32 m) as [Hr Hbound].
  apply Z.mod_divide in Hb as [k ->]; [| lia].
  apply Z.mod_divide in Hr as [j Hj]; [| lia].
  rewrite Hj in *. lia.
Qed.

(** The maximum over [range(n)] is attained and bounds every element. *)
Lemma range_max_spec (g : Z -> Z) (n : nat) (m : Z) :
  py_max (map (λ idx : nat, g (Z.of_nat idx)) (seq 0 n)) = Some m ->
  (exists idx, (idx < n)%nat /\ g (Z.of_nat idx) = m) /\
  (forall idx, (idx < n)%nat -> g (Z.of_nat idx) <= m).
Proof.
  intros Hm. apply py_max_spec in Hm as [Hin Hall]. split.
  - apply list_elem_of_In, in_map_iff in Hin as (idx & Heq & Hidx).
    apply in_seq in Hidx. exists idx. split; [lia | assumption].
  - intros idx Hidx. rewrite Forall_forall in Hall. apply Hall.
    apply list_elem_of_In, in_map_iff. exists idx. split; [reflexivity |].
    apply in_seq. lia.
Qed.

Lemma zcurve_size_spec (n : nat) (imageWidth imageHeight : Z) :
  zcurve_size n = Some (imageWidth, imageHeight) ->
  exists ix iy, (ix < n)%nat /\ (iy < n)%nat /\
    (forall idx, (idx < n)%nat ->
       Morton.DecodeMorton2X (Z.of_nat idx) <= Morton.DecodeMorton2X (Z.of_nat ix) /\
       Morton.DecodeMorton2Y (Z.of_nat idx) <= Morton.DecodeMorton2Y (Z.of_nat iy)) /\
    imageWidth = round_up (Morton.DecodeMorton2X (Z.of_nat ix) + 1) 32 /\
    imageHeight = round_up (Morton.DecodeMorton2Y (Z.of_nat iy) + 1) 32.
Proof.
  unfold zcurve_size. intros Hsize.
  destruct (py_max (map (λ idx : nat, Morton.DecodeMorton2X (Z.of_nat idx)) (seq 0 n)))
    as [mx |] eqn:Emx; [| discriminate].
  destruct (py_max (map (λ idx : nat, Morton.DecodeMorton2Y (Z.of_nat idx)) (seq 0 n)))
    as [my |] eqn:Emy; [| discriminate].
  cbn in Hsize. inversion Hsize; subst imageWidth imageHeight.
  destruct (range_max_spec _ _ _ Emx) as ((ix & Hix & Hxm) & Hxall).
  destruct (range_max_spec _ _ _ Emy) as ((iy & Hiy & Hym) & Hyall).
  exists ix, iy. rewrite Hxm, Hym. repeat split; auto.
Qed.

Lemma zcurve_size_total (n : nat) : (0 < n)%nat -> is_Some (zcurve_size n).
Proof.
  intros Hn. unfold zcurve_size.
  destruct n as [| n]; [lia |]. cbn. eauto.
Qed.

(** Every decoded cell lies inside the computed image. *)
Lemma zcurve_size_bounds (n : nat) (imageWidth imageHeight : Z) :
  zcurve_size n = Some (imageWidth, imageHeight) ->
  forall idx, (idx < n)%nat ->
    0 <= Morton.DecodeMorton2X (Z.of_nat idx) < imageWidth /\
    0 <= Morton.DecodeMorton2Y (Z.of_nat idx) < imageHeight.
Proof.
  intros Hsize idx Hidx.
  destruct (zcurve_size_spec _ _ _ Hsize) as (ix & iy & _ & _ & Hmax & -> & ->).
  destruct (Hmax idx Hidx) as [Hx Hy].
  pose proof (MortonFacts.DecodeMorton2X_range (Z.of_nat idx)).
  pose proof (MortonFacts.DecodeMorton2Y_range (Z.of_nat idx)).
  pose proof (round_up_32 (Morton.DecodeMorton2X (Z.of_nat ix) + 1)).
  pose proof (round_up_32 (Morton.DecodeMorton2Y (Z.of_nat iy) + 1)).
  lia.
Qed.

(** Within the pixel budget both dimensions fit an 8k texture. *)
Lemma zcurve_size_8k (n : nat) (imageWidth imageHeight : Z) :
  zcurve_size n = Some (imageWidth, imageHeight) ->
  Z.of_nat n <= 8192 * 8192 ->
  imageWidth <= 8192 /\ imageHeight <= 8192.
Proof.
  intros Hsize Hn.
  destruct (zcurve_size_spec _ _ _ Hsize) as (ix & iy & Hix & Hiy & _ & -> & ->).
  pose proof (MortonFacts.DecodeMorton2X_bound (Z.of_nat ix) 13 ltac:(lia)) as Hx.
  pose proof (MortonFacts.DecodeMorton2Y_bound (Z.of_nat iy) 13 ltac:(lia)) as Hy.
  change (2 ^ (2 * 13)) with (8192 * 8192) in Hx, Hy. change (2 ^ 13) with 8192 in Hx, Hy.
  split; apply round_up_32_le; try reflexivity; [apply Z.lt_le_pred in Hx | apply Z.lt_le_pred in Hy]; lia.
Qed.

End LayoutFacts.

Section GridFacts.
Context {F : Type} `{Scalar F} `{Mathutils F}.

Lemma grid_zeros_rect (height width : nat) : rect height width (grid_zeros height width).
Proof.
  unfold rect, grid_zeros. split; [apply length_replicate |].
  apply Forall_replicate, length_replicate.
Qed.

Lemma grid_zeros_get (height width y x : nat) :
  (y < height)%nat -> (x < width)%nat ->
  grid_get (grid_zeros height width) y x = Some zero_pixel.
Proof.
  intros Hy Hx. unfold grid_get, grid_zeros.
  rewrite lookup_replicate_2 by assumption. cbn.
  now rewrite lookup_replicate_2.
Qed.

Lemma rect_row (height width : nat) (grid : list (list (Pixel F))) (y : nat)
    (row : list (Pixel F)) :
  rect height width grid -> grid !! y = Some row -> length row = width.
Proof.
  intros [_ Hrows] Hy. rewrite Forall_forall in Hrows.
  apply Hrows. eapply list_elem_of_lookup_2; eauto.
Qed.

Lemma grid_set_spec (height width : nat) (grid grid' : list (list (Pixel F)))
    (y x : nat) (p : Pixel F) :
  rect height width grid ->
  grid_set grid y x p = Some grid' ->
  rect height width grid' /\
  grid_get grid' y x = Some p /\
  (forall y' x', (y', x') <> (y, x) -> grid_get grid' y' x' = grid_get grid y' x').
Proof.
  intros Hrect Hset. unfold grid_set in Hset.
  destruct (grid !! y) as [row |] eqn:Erow; [| discriminate]. cbn in Hset.
  destruct (np_set row x p) as [row' |] eqn:Erow'; [| discriminate]. cbn in Hset.
  pose proof (rect_row _ _ _ _ _ Hrect Erow) as Hlen.
  destruct Hrect as [Hh Hrows].
  split; [| split].
  - split.
    + now rewrite (np_set_length _ _ _ _ Hset).
    + apply np_set_Some in Hset as [_ ->].
      apply Forall_insert; [assumption |].
      now rewrite (np_set_length _ _ _ _ Erow').
  - unfold grid_get. rewrite (np_set_same _ _ _ _ Hset). cbn.
    eapply np_set_same; eauto.
  - intros y' x' Hne. unfold grid_get.
    destruct (decide (y' = y)) as [-> | Hy].
    + rewrite (np_set_same _ _ _ _ Hset), Erow. cbn.
      eapply np_set_other; [eassumption | congruence].
    + now rewrite (np_set_other _ _ _ _ _ Hset) by congruence.
Qed.

Lemma grid_set_total (height width : nat) (grid : list (list (Pixel F)))
    (y x : nat) (p : Pixel F) :
  rect height width grid -> (y < height)%nat -> (x < width)%nat ->
  is_Some (grid_set grid y x p).
Proof.
  intros Hrect Hy Hx. unfold grid_set.
  destruct (lookup_lt_is_Some_2 grid y) as [row Erow]; [destruct Hrect; lia |].
  rewrite Erow. cbn.
  rewrite np_set_in_range by (rewrite (rect_row _ _ _ _ _ Hrect Erow); lia). cbn.
  rewrite np_set_in_range by (destruct Hrect; lia). eauto.
Qed.

(** Row-major flattening of a rectangular grid. *)
Lemma concat_lookup_rect (width : nat) (grid : list (list (Pixel F))) :
  Forall (λ row, length row = width) grid ->
  forall y x, (x < width)%nat ->
    concat grid !! (y * width + x)%nat = grid !! y ≫= (λ row, row !! x).
Proof.
  induction grid as [| row rest IH]; intros Hrows y x Hx.
  - cbn. now rewrite !lookup_nil.
  - apply Forall_cons in Hrows as [Hrow Hrest]. cbn [concat].
    destruct y as [| y].
    + cbn. apply lookup_app_l. lia.
    + rewrite lookup_app_r by (rewrite Hrow; cbn; lia).
      rewrite Hrow. cbn [lookup list_lookup].
      replace (S y * width + x - width)%nat with (y * width + x)%nat by lia.
      now apply IH.
Qed.

Lemma image_cell_grid (height width : nat) (grid : list (list (Pixel F))) (y x : nat) :
  rect height width grid -> (x < width)%nat ->
  image_cell (Z.of_nat width) (grid_flatten grid) (Z.of_nat x) (Z.of_nat y) = grid_get grid y x.
Proof.
  intros [_ Hrows] Hx. unfold image_cell, grid_flatten, grid_get.
  rewrite pixel_at_flatten.
  replace (Z.to_nat (Z.of_nat y * Z.of_nat width + Z.of_nat x)) with (y * width + x)%nat by lia.
  now apply concat_lookup_rect.
Qed.

Lemma zcurve_loop_spec (height width : nat) (offsets normals : list F) (idxs : list nat) :
  forall og ng og' ng',
  rect height width og -> rect height width ng ->
  NoDup (map cell idxs) ->
  zcurve_loop offsets normals idxs og ng = Some (og', ng') ->
  rect height width og' /\ rect height width ng' /\
  (forall idx, idx ∈ idxs ->
     grid_get og' (morton_y idx) (morton_x idx) = pixel_at offsets idx /\
     grid_get ng' (morton_y idx) (morton_x idx) = pixel_at normals idx) /\
  (forall y x, (y, x) ∉ map cell idxs ->
     grid_get og' y x = grid_get og y x /\ grid_get ng' y x = grid_get ng y x).
Proof.
  induction idxs as [| idx rest IH]; intros og ng og' ng' Hog Hng Hnd Hrun.
  - cbn in Hrun. inversion Hrun; subst.
    split; [assumption | split; [assumption | split]].
    + intros idx Hin. now apply elem_of_nil in Hin.
    + auto.
  - cbn [zcurve_loop] in Hrun. cbv zeta in Hrun.
    destruct (pixel_at offsets idx) as [po |] eqn:Epo; [| discriminate]. cbn in Hrun.
    destruct (grid_set og _ _ po) as [og1 |] eqn:Eog1; [| discriminate]. cbn in Hrun.
    destruct (pixel_at normals idx) as [pn |] eqn:Epn; [| discriminate]. cbn in Hrun.
    destruct (grid_set ng _ _ pn) as [ng1 |] eqn:Eng1; [| discriminate]. cbn in Hrun.
    destruct (grid_set_spec _ _ _ _ _ _ _ Hog Eog1) as (Hog1 & Hoget & Hoother).
    destruct (grid_set_spec _ _ _ _ _ _ _ Hng Eng1) as (Hng1 & Hnget & Hnother).
    cbn [map] in Hnd. apply NoDup_cons in Hnd as [Hfresh Hnd].
    destruct (IH _ _ _ _ Hog1 Hng1 Hnd Hrun) as (Hog' & Hng' & Hin & Hout).
    split; [assumption | split; [assumption | split]].
    + intros i Hi. apply elem_of_cons in Hi as [-> | Hi]; [| now apply Hin].
      destruct (Hout _ _ Hfresh) as [-> ->]. rewrite Epo, Epn. auto.
    + intros y x Hnot. cbn [map] in Hnot. apply not_elem_of_cons in Hnot as [Hne Hnot].
      destruct (Hout _ _ Hnot) as [-> ->].
      split; [apply Hoother | apply Hnother]; exact Hne.
Qed.

Lemma zcurve_loop_total (height width : nat) (offsets normals : list F) (idxs : list nat) :
  forall og ng,
  rect height width og -> rect height width ng ->
  Forall (λ idx, is_Some (pixel_at offsets idx) /\ is_Some (pixel_at normals idx) /\
                 (morton_y idx < height)%nat /\ (morton_x idx < width)%nat) idxs ->
  is_Some (zcurve_loop offsets normals idxs og ng).
Proof.
  induction idxs as [| idx rest IH]; intros og ng Hog Hng Hall; cbn [zcurve_loop].
  - eauto.
  - inversion Hall as [| ? ? ([po Epo] & [pn Epn] & Hy & Hx) Hrest]; subst.
    cbv zeta. rewrite Epo, Epn. cbn.
    destruct (grid_set_total _ _ _ _ _ po Hog Hy Hx) as [og1 Eog1].
    destruct (grid_set_total _ _ _ _ _ pn Hng Hy Hx) as [ng1 Eng1].
    rewrite Eog1. cbn. rewrite Eng1. cbn.
    destruct (grid_set_spec _ _ _ _ _ _ _ Hog Eog1) as (Hog1 & _).
    destruct (grid_set_spec _ _ _ _ _ _ _ Hng Eng1) as (Hng1 & _).
    now apply IH.
Qed.

End GridFacts.

Section ZCurveFacts.
Context {F : Type} `{Scalar F} `{Mathutils F}.

Lemma cell_decode (idx : nat) (x y : Z) :
  0 <= x -> 0 <= y ->
  cell idx = (Z.to_nat y, Z.to_nat x) <-> Morton.MortonDecode (Z.of_nat idx) = (x, y).
Proof.
  intros Hx Hy. unfold cell, morton_x, morton_y, Morton.MortonDecode.
  pose proof (MortonFacts.DecodeMorton2X_range (Z.of_nat idx)).
  pose proof (MortonFacts.DecodeMorton2Y_range (Z.of_nat idx)).
  split; intros Heq; inversion Heq; f_equal; lia.
Qed.

Lemma cell_inj (i j : nat) :
  Z.of_nat i < 2 ^ 32 -> Z.of_nat j < 2 ^ 32 -> cell i = cell j -> i = j.
Proof.
  intros Hi Hj Heq.
  pose proof (MortonFacts.DecodeMorton2X_range (Z.of_nat j)).
  pose proof (MortonFacts.DecodeMorton2Y_range (Z.of_nat j)).
  assert (Hd : Morton.MortonDecode (Z.of_nat i) = Morton.MortonDecode (Z.of_nat j)).
  { apply (cell_decode i); [lia | lia |]. rewrite Heq. reflexivity. }
  apply MortonFacts.MortonDecode_inj in Hd; lia.
Qed.

Lemma cells_NoDup (n : nat) : Z.of_nat n <= 2 ^ 32 -> NoDup (map cell (seq 0 n)).
Proof.
  intros Hn. apply (NoDup_fmap_2_strong cell).
  - intros i j Hi Hj. apply list_elem_of_In, in_seq in Hi. apply list_elem_of_In, in_seq in Hj.
    apply cell_inj; lia.
  - apply NoDup_ListNoDup, List.seq_NoDup.
Qed.

Lemma cell_in_range (n : nat) (c : nat * nat) :
  c ∈ map cell (seq 0 n) <-> exists idx, (idx < n)%nat /\ cell idx = c.
Proof.
  rewrite list_elem_of_In, in_map_iff. split.
  - intros (idx & Heq & Hidx). apply in_seq in Hidx. exists idx. split; [lia | assumption].
  - intros (idx & Hidx & Heq). exists idx. split; [assumption | apply in_seq; lia].
Qed.

Lemma image_cell_grid_Z (imageHeight imageWidth : Z) (grid : list (list (Pixel F))) (x y : Z) :
  rect (Z.to_nat imageHeight) (Z.to_nat imageWidth) grid ->
  0 <= x < imageWidth -> 0 <= y ->
  image_cell imageWidth (grid_flatten grid) x y = grid_get grid (Z.to_nat y) (Z.to_nat x).
Proof.
  intros Hrect Hx Hy.
  rewrite <- (image_cell_grid _ _ _ _ _ Hrect) by lia.
  now rewrite !Z2Nat.id by lia.
Qed.

Lemma zcurve_layout_total (offs norms : list (Pixel F)) :
  length norms = length offs -> (0 < length offs)%nat ->
  is_Some (zcurve_layout (flatten offs) (flatten norms)).
Proof.
  intros Hlen Hpos. unfold zcurve_layout. rewrite flatten_div4.
  destruct (LayoutFacts.zcurve_size_total (length offs) Hpos) as [[W Hh] Esize].
  rewrite Esize. cbn.
  pose proof (LayoutFacts.zcurve_size_bounds _ _ _ Esize) as Hbounds.
  destruct (zcurve_loop_total (Z.to_nat Hh) (Z.to_nat W) (flatten offs) (flatten norms)
              (seq 0 (length offs)) (grid_zeros (Z.to_nat Hh) (Z.to_nat W))
              (grid_zeros (Z.to_nat Hh) (Z.to_nat W)))
    as [[og ng] Eloop].
  - apply grid_zeros_rect.
  - apply grid_zeros_rect.
  - apply Forall_forall. intros idx Hidx. apply list_elem_of_In, in_seq in Hidx.
    rewrite !pixel_at_flatten.
    split; [apply lookup_lt_is_Some_2; lia |].
    split; [apply lookup_lt_is_Some_2; lia |].
    destruct (Hbounds idx ltac:(lia)) as [Hx Hy]. unfold morton_x, morton_y. lia.
  - rewrite Eloop. cbn. eauto.
Qed.

Lemma zcurve_layout_spec (offs norms : list (Pixel F))
    (imageWidth imageHeight : Z) (offsets' normals' : list F) :
  length norms = length offs -> Z.of_nat (length offs) <= 2 ^ 32 ->
  zcurve_layout (flatten offs) (flatten norms)
    = Some (imageWidth, imageHeight, offsets', normals') ->
  zcurve_size (length offs) = Some (imageWidth, imageHeight) /\
  (forall idx, (idx < length offs)%nat ->
     image_cell imageWidth offsets' (Morton.DecodeMorton2X (Z.of_nat idx))
       (Morton.DecodeMorton2Y (Z.of_nat idx)) = offs !! idx /\
     image_cell imageWidth normals' (Morton.DecodeMorton2X (Z.of_nat idx))
       (Morton.DecodeMorton2Y (Z.of_nat idx)) = norms !! idx) /\
  (forall x y, 0 <= x < imageWidth -> 0 <= y < imageHeight ->
     (forall idx, (idx < length offs)%nat -> Morton.MortonDecode (Z.of_nat idx) <> (x, y)) ->
     image_cell imageWidth offsets' x y = Some zero_pixel /\
     image_cell imageWidth normals' x y = Some zero_pixel).
Proof.
  intros Hlen Hn. unfold zcurve_layout. rewrite flatten_div4. intros Hrun.
  destruct (zcurve_size (length offs)) as [[W Hh] |] eqn:Esize; [| discriminate].
  cbn in Hrun.
  destruct (zcurve_loop _ _ _ _ _) as [[og ng] |] eqn:Eloop; [| discriminate].
  cbn in Hrun. inversion Hrun; subst imageWidth imageHeight offsets' normals'. clear Hrun.
  pose proof (LayoutFacts.zcurve_size_bounds _ _ _ Esize) as Hbounds.
  destruct (zcurve_loop_spec _ _ _ _ _ _ _ _ _
              (grid_zeros_rect _ _) (grid_zeros_rect _ _) (cells_NoDup _ Hn) Eloop)
    as (Hog & Hng & Hin & Hout).
  split; [reflexivity | split].
  - intros idx Hidx. destruct (Hbounds idx Hidx) as [Hx Hy].
    rewrite !(image_cell_grid_Z Hh W) by (assumption || lia).
    destruct (Hin idx) as [Ho Hno]; [apply list_elem_of_In, in_seq; lia |].
    unfold morton_x, morton_y in Ho, Hno.
    now rewrite Ho, Hno, !pixel_at_flatten.
  - intros x y Hx Hy Hfree.
    rewrite !(image_cell_grid_Z Hh W) by (assumption || lia).
    destruct (Hout (Z.to_nat y) (Z.to_nat x)) as [-> ->].
    + rewrite cell_in_range. intros (idx & Hidx & Hcell).
      apply cell_decode in Hcell; [| lia | lia]. exact (Hfree idx Hidx Hcell).
    + rewrite grid_zeros_get by lia. auto.
Qed.

End ZCurveFacts.

Section ExecuteFacts.
Context {F : Type} `{Scalar F} `{Mathutils F}.

Lemma pixel_at_drop4 (flat : list F) (idx : nat) :
  pixel_at (drop 4 flat) idx = pixel_at flat (S idx).
Proof.
  unfold pixel_at. rewrite drop_drop.
  now replace (4 + 4 * idx)%nat with (4 * S idx)%nat by lia.
Qed.

(** What a call of [execute] that gets past the checks works on: the
    two flattened arrays of [vertex_count * frame_count + 1] pixels. *)
Lemma execute_buffers (vertex_count : nat) (meshes : list (Mesh F)) (hv hf : Z)
    (offsets normals : list F) :
  well_formed meshes vertex_count = true ->
  get_vertex_data meshes hv hf = Some (offsets, normals) ->
  exists offs norms,
    offsets = flatten offs /\ normals = flatten norms /\
    length offs = (vertex_count * length meshes + 1)%nat /\
    length norms = length offs.
Proof.
  intros Hwf Hrun.
  destruct (get_vertex_data_rows _ _ _ _ _ Hrun) as (offs & norms & Hrows & -> & ->).
  destruct (vertex_data_rows_header _ _ _ _ _ Hrows) as (_ & _ & m0 & Hm0 & Hlo & Hln).
  destruct (well_formed_inv _ _ Hwf) as (m0' & rest & -> & Hvc & _).
  cbn in Hm0. inversion Hm0; subst m0'.
  exists offs, norms. rewrite Hln, Hlo, Hvc. auto.
Qed.

Lemma execute_zcurve_run (mods : list string) (vertex_count : nat) (meshes : list (Mesh F))
    (offsets normals : list F) :
  modifier_check mods = None ->
  capacity_check (Z.of_nat vertex_count) (Z.of_nat (length meshes)) = None ->
  well_formed meshes vertex_count = true ->
  get_vertex_data meshes (Z.of_nat vertex_count) (Z.of_nat (length meshes))
    = Some (offsets, normals) ->
  exists offs norms imageWidth imageHeight offsets' normals',
    offsets = flatten offs /\ normals = flatten norms /\
    length offs = (vertex_count * length meshes + 1)%nat /\
    length norms = length offs /\
    Z.of_nat (length offs) <= 8192 * 8192 /\
    zcurve_layout offsets normals = Some (imageWidth, imageHeight, offsets', normals') /\
    execute mods (Z.of_nat vertex_count) (Z.of_nat (length meshes)) meshes true
      = FINISHED imageWidth imageHeight offsets' normals'.
Proof.
  intros Hmods Hcap Hwf Hrun.
  destruct (execute_buffers _ _ _ _ _ _ Hwf Hrun) as (offs & norms & -> & -> & Hlo & Hln).
  destruct (zcurve_layout_total offs norms Hln ltac:(lia)) as [[[[W Hh] o'] n'] Elay].
  exists offs, norms, W, Hh, o', n'.
  apply CapacityFacts.capacity_check_pass in Hcap as Hpass.
  repeat (split; [first [reflexivity | assumption | lia] |]).
  unfold execute. now rewrite Hmods, Hcap, Hrun, Elay.
Qed.

Lemma zcurve_layout_size (offs norms : list (Pixel F))
    (imageWidth imageHeight : Z) (offsets' normals' : list F) :
  zcurve_layout (flatten offs) (flatten norms)
    = Some (imageWidth, imageHeight, offsets', normals') ->
  zcurve_size (length offs) = Some (imageWidth, imageHeight).
Proof.
  unfold zcurve_layout. rewrite flatten_div4. intros Hrun.
  destruct (zcurve_size (length offs)) as [[W Hh] |]; [| discriminate].
  cbn in Hrun.
  destruct (zcurve_loop _ _ _ _ _) as [[og ng] |]; [| discriminate].
  cbn in Hrun. now inversion Hrun.
Qed.

End ExecuteFacts.

(** C8.  In Z-curve mode, for a call of [execute] that passes the
    checks on well-formed snapshots, with [n = vertex_count *
    frame_count + 1]: the call finishes with an image in which distinct
    indices below [n] decode to distinct cells, every decoded cell lies
    inside the image and holds the pixel of its index, the width and the
    height are the least multiples of 32 above the largest decoded x
    and y, and every cell no index decodes to is zero. *)
Theorem zcurve_cells_distinct_and_in_bounds
    (F : Type) (SF : Scalar F) (MF : Mathutils F)
    (mods : list string) (vertex_count : nat) (meshes : list (Mesh F))
    (offsets normals : list F) :
  modifier_check mods = None ->
  capacity_check (Z.of_nat vertex_count) (Z.of_nat (length meshes)) = None ->
  well_formed meshes vertex_count = true ->
  get_vertex_data meshes (Z.of_nat vertex_count) (Z.of_nat (length meshes))
    = Some (offsets, normals) ->
  let n := (vertex_count * length meshes + 1)%nat in
  exists imageWidth imageHeight offsets' normals',
    execute mods (Z.of_nat vertex_count) (Z.of_nat (length meshes)) meshes true
      = FINISHED imageWidth imageHeight offsets' normals' /\
    (forall i j, (i < n)%nat -> (j < n)%nat -> i <> j ->
       Morton.MortonDecode (Z.of_nat i) <> Morton.MortonDecode (Z.of_nat j)) /\
    (forall i, (i < n)%nat ->
       let (x, y) := Morton.MortonDecode (Z.of_nat i) in
       0 <= x < imageWidth /\ 0 <= y < imageHeight /\
       image_cell imageWidth offsets' x y = pixel_at offsets i /\
       image_cell imageWidth normals' x y = pixel_at normals i) /\
    (exists ix iy, (ix < n)%nat /\ (iy < n)%nat /\
       let max_x := Morton.DecodeMorton2X (Z.of_nat ix) + 1 in
       let max_y := Morton.DecodeMorton2Y (Z.of_nat iy) + 1 in
       (forall i, (i < n)%nat ->
          Morton.DecodeMorton2X (Z.of_nat i) + 1 <= max_x /\
          Morton.DecodeMorton2Y (Z.of_nat i) + 1 <= max_y) /\
       imageWidth mod 32 = 0 /\ max_x <= imageWidth < max_x + 32 /\
       imageHeight mod 32 = 0 /\ max_y <= imageHeight < max_y + 32) /\
    (forall x y, 0 <= x < imageWidth -> 0 <= y < imageHeight ->
       (forall i, (i < n)%nat -> Morton.MortonDecode (Z.of_nat i) <> (x, y)) ->
       image_cell imageWidth offsets' x y = Some zero_pixel /\
       image_cell imageWidth normals' x y = Some zero_pixel).
Proof.
  intros Hmods Hcap Hwf Hrun n.
  destruct (execute_zcurve_run mods vertex_count meshes offsets normals Hmods Hcap Hwf Hrun)
    as (offs & norms & W & Hh & o' & n' & -> & -> & Hlo & Hln & Hbudget & Elay & Hexec).
  fold n in Hlo.
  assert (Hn32 : Z.of_nat (length offs) <= 2 ^ 32) by (change (2 ^ 32) with 4294967296; lia).
  destruct (zcurve_layout_spec offs norms W Hh o' n' Hln Hn32 Elay) as (Esize & Hcells & Hzero).
  rewrite Hlo in *.
  exists W, Hh, o', n'. split; [exact Hexec |]. split; [| split; [| split]].
  - intros i j Hi Hj Hne Heq. apply Hne.
    apply MortonFacts.MortonDecode_inj in Heq; lia.
  - intros i Hi. unfold Morton.MortonDecode.
    destruct (LayoutFacts.zcurve_size_bounds _ _ _ Esize i Hi) as [Hx Hy].
    destruct (Hcells i Hi) as [Ho Hno]. rewrite !pixel_at_flatten. auto.
  - destruct (LayoutFacts.zcurve_size_spec _ _ _ Esize) as (ix & iy & Hix & Hiy & Hmax & HW & HH).
    exists ix, iy. split; [assumption | split; [assumption |]]. cbv zeta.
    pose proof (LayoutFacts.round_up_32 (Morton.DecodeMorton2X (Z.of_nat ix) + 1)) as [? ?].
    pose proof (LayoutFacts.round_up_32 (Morton.DecodeMorton2Y (Z.of_nat iy) + 1)) as [? ?].
    unfold imageWidthGranularity, imageHeightGranularity in *.
    rewrite HW, HH.
    split; [| auto].
    intros i Hi. destruct (Hmax i Hi). lia.
  - exact Hzero.
Qed.

Lemma zcurve_cells_distinct_and_in_bounds_witness :
  exists imageWidth imageHeight offsets' normals',
    execute [] 3 2 FloatModel.example_meshes true
      = FINISHED imageWidth imageHeight offsets' normals' /\
    Morton.MortonDecode 5 <> Morton.MortonDecode 6 /\
    image_cell imageWidth offsets' 3 1 = Some zero_pixel.
Proof.
  destruct (get_vertex_data FloatModel.example_meshes 3 2) as [[offsets normals] |] eqn:Hrun;
    [| vm_compute in Hrun; discriminate Hrun].
  destruct (zcurve_cells_distinct_and_in_bounds float _ _ [] 3%nat FloatModel.example_meshes
              offsets normals eq_refl eq_refl eq_refl Hrun)
    as (W & Hh & o' & n' & Hexec & Hinj & Hcells & _ & Hzero).
  exists W, Hh, o', n'. split; [exact Hexec |].
  split; [apply (Hinj 5%nat 6%nat); cbn; lia |].
  pose proof (Hcells 5%nat ltac:(cbn; lia)) as H5.
  pose proof (Hcells 6%nat ltac:(cbn; lia)) as H6.
  change (Morton.MortonDecode (Z.of_nat 5)) with (3, 0) in H5.
  change (Morton.MortonDecode (Z.of_nat 6)) with (2, 1) in H6.
  destruct H5 as (Hx & _). destruct H6 as (_ & Hy & _).
  apply Hzero; [lia | lia |].
  intros i Hi. cbn in Hi.
  assert (Hcases : i = 0%nat \/ i = 1%nat \/ i = 2%nat \/ i = 3%nat \/ i = 4%nat \/
                   i = 5%nat \/ i = 6%nat) by lia.
  repeat (destruct Hcases as [-> | Hcases]; [vm_compute; discriminate |]).
  subst i. vm_compute. discriminate.
Defined.

(** C9.  In linear mode a call of [execute] that passes the checks on
    well-formed snapshots finishes with width [vertex_count] and height
    [frame_count]; both buffers lose their first four values, the
    header pixel, and keep exactly [width * height] pixels; data pixel
    [i] sits in cell [(i mod width, i div width)] of both images and is
    pixel [i + 1] of the buffer [get_vertex_data] returned. *)
Theorem linear_layout_drops_header
    (F : Type) (SF : Scalar F) (MF : Mathutils F)
    (mods : list string) (vertex_count : nat) (meshes : list (Mesh F))
    (offsets normals : list F) :
  modifier_check mods = None ->
  capacity_check (Z.of_nat vertex_count) (Z.of_nat (length meshes)) = None ->
  well_formed meshes vertex_count = true ->
  get_vertex_data meshes (Z.of_nat vertex_count) (Z.of_nat (length meshes))
    = Some (offsets, normals) ->
  let width := Z.of_nat vertex_count in
  let height := Z.of_nat (length meshes) in
  execute mods width height meshes false
    = FINISHED width height (drop 4 offsets) (drop 4 normals) /\
  Z.of_nat (length (drop 4 offsets)) = 4 * (width * height) /\
  Z.of_nat (length (drop 4 normals)) = 4 * (width * height) /\
  forall i : nat, Z.of_nat i < width * height ->
    image_cell width (drop 4 offsets) (Z.of_nat i mod width) (Z.of_nat i / width)
      = pixel_at offsets (i + 1) /\
    image_cell width (drop 4 normals) (Z.of_nat i mod width) (Z.of_nat i / width)
      = pixel_at normals (i + 1) /\
    is_Some (pixel_at offsets (i + 1)) /\ is_Some (pixel_at normals (i + 1)).
Proof.
  intros Hmods Hcap Hwf Hrun. cbv zeta.
  destruct (execute_buffers _ _ _ _ _ _ Hwf Hrun) as (offs & norms & -> & -> & Hlo & Hln).
  set (width := Z.of_nat vertex_count) in *.
  set (height := Z.of_nat (length meshes)) in *.
  assert (Hpixels : Z.of_nat (length offs) = width * height + 1)
    by (rewrite Hlo; unfold width, height; lia).
  split; [| split; [| split]].
  - unfold execute. now rewrite Hmods, Hcap, Hrun.
  - rewrite length_drop, flatten_length. lia.
  - rewrite length_drop, flatten_length, Hln. lia.
  - intros i Hi. unfold image_cell.
    assert (Hw : 0 < width) by (unfold width, height in *; nia).
    replace (Z.of_nat i / width * width + Z.of_nat i mod width) with (Z.of_nat i)
      by (pose proof (Z.div_mod (Z.of_nat i) width ltac:(lia)); lia).
    rewrite Nat2Z.id, !pixel_at_drop4, Nat.add_1_r, !pixel_at_flatten.
    split; [reflexivity | split; [reflexivity |]].
    split; apply lookup_lt_is_Some_2; lia.
Qed.

Lemma linear_layout_drops_header_witness :
  exists offsets normals,
    execute [] 3 2 FloatModel.example_meshes false
      = FINISHED 3 2 (drop 4 offsets) (drop 4 normals) /\
    image_cell 3 (drop 4 offsets) (4 mod 3) (4 / 3) = Some (px 0 0 1 1)%float.
Proof.
  destruct (get_vertex_data FloatModel.example_meshes 3 2) as [[offsets normals] |] eqn:Hrun;
    [| vm_compute in Hrun; discriminate Hrun].
  destruct (linear_layout_drops_header float _ _ [] 3%nat FloatModel.example_meshes
              offsets normals eq_refl eq_refl eq_refl Hrun)
    as (Hexec & _ & _ & Hcells).
  exists offsets, normals. split; [exact Hexec |].
  destruct (Hcells 4%nat ltac:(cbn; lia)) as (Hcell & _).
  change (Z.of_nat 4) with 4 in Hcell. change (Z.of_nat 3) with 3 in Hcell.
  rewrite Hcell.
  vm_compute in Hrun. inversion Hrun; subst offsets normals. reflexivity.
Defined.

(** C10.  Both decoders return a value in [0, 0xFFFF] for every
    integer; for every index below the number of elements the decoded x
    is below the computed width and the decoded y below the computed
    height, and the scatter loop of the Z-curve layout never leaves the
    grid: the layout returns for every pair of buffers of equal,
    non-zero length; within the pixel budget both dimensions are at
    most 8192, and so are those of every image [execute] finishes with
    in Z-curve mode. *)
Theorem zcurve_writes_in_bounds :
  (forall code : Z,
      0 <= Morton.DecodeMorton2X code <= 0xFFFF /\
      0 <= Morton.DecodeMorton2Y code <= 0xFFFF) /\
  (forall (num_elements : nat) (imageWidth imageHeight : Z),
      zcurve_size num_elements = Some (imageWidth, imageHeight) ->
      (forall idx, (idx < num_elements)%nat ->
         Morton.DecodeMorton2X (Z.of_nat idx) < imageWidth /\
         Morton.DecodeMorton2Y (Z.of_nat idx) < imageHeight) /\
      (Z.of_nat num_elements <= 8192 * 8192 ->
         imageWidth <= 8192 /\ imageHeight <= 8192)) /\
  (forall (F : Type) (SF : Scalar F) (MF : Mathutils F) (offs norms : list (Pixel F)),
      length norms = length offs -> (0 < length offs)%nat ->
      exists imageWidth imageHeight offsets' normals',
        zcurve_layout (flatten offs) (flatten norms)
          = Some (imageWidth, imageHeight, offsets', normals') /\
        zcurve_size (length offs) = Some (imageWidth, imageHeight)) /\
  (forall (F : Type) (SF : Scalar F) (MF : Mathutils F)
      (mods : list string) (vertex_count : nat) (meshes : list (Mesh F))
      (offsets normals : list F),
      modifier_check mods = None ->
      capacity_check (Z.of_nat vertex_count) (Z.of_nat (length meshes)) = None ->
      well_formed meshes vertex_count = true ->
      get_vertex_data meshes (Z.of_nat vertex_count) (Z.of_nat (length meshes))
        = Some (offsets, normals) ->
      exists imageWidth imageHeight offsets' normals',
        execute mods (Z.of_nat vertex_count) (Z.of_nat (length meshes)) meshes true
          = FINISHED imageWidth imageHeight offsets' normals' /\
        imageWidth <= 8192 /\ imageHeight <= 8192).
Proof.
  split; [| split; [| split]].
  - intros code. split;
      [apply MortonFacts.DecodeMorton2X_range | apply MortonFacts.DecodeMorton2Y_range].
  - intros n W Hh Esize. split.
    + intros idx Hidx.
      destruct (LayoutFacts.zcurve_size_bounds _ _ _ Esize idx Hidx). lia.
    + now apply LayoutFacts.zcurve_size_8k.
  - intros F SF MF offs norms Hlen Hpos.
    destruct (zcurve_layout_total offs norms Hlen Hpos) as [[[[W Hh] o'] n'] Elay].
    exists W, Hh, o', n'. split; [exact Elay |].
    now apply (zcurve_layout_size offs norms W Hh o' n').
  - intros F SF MF mods vertex_count meshes offsets normals Hmods Hcap Hwf Hrun.
    destruct (execute_zcurve_run mods vertex_count meshes offsets normals Hmods Hcap Hwf Hrun)
      as (offs & norms & W & Hh & o' & n' & -> & -> & Hlo & Hln & Hbudget & Elay & Hexec).
    exists W, Hh, o', n'. split; [exact Hexec |].
    apply (LayoutFacts.zcurve_size_8k (length offs)); [| exact Hbudget].
    now apply (zcurve_layout_size offs norms W Hh o' n').
Qed.

Lemma zcurve_writes_in_bounds_witness :
  exists imageWidth imageHeight offsets' normals',
    execute [] 3 2 FloatModel.example_meshes true
      = FINISHED imageWidth imageHeight offsets' normals' /\
    imageWidth <= 8192 /\ imageHeight <= 8192.
Proof.
  destruct (get_vertex_data FloatModel.example_meshes 3 2) as [[offsets normals] |] eqn:Hrun;
    [| vm_compute in Hrun; discriminate Hrun].
  exact (proj2 (proj2 (proj2 zcurve_writes_in_bounds)) float _ _ [] 3%nat
           FloatModel.example_meshes offsets normals eq_refl eq_refl eq_refl Hrun).
Defined.

(** * Further properties of the encoder and of the code around it *)

(** ** Frame sampling *)

Module SamplingFacts.

Lemma range_length_forward (start stop step : Z) :
  0 < step -> start < stop -> range_length start stop step = 1 + (stop - 1 - start) / step.
Proof.
  intros Hstep Hlt. unfold range_length.
  destruct (Z.ltb_spec 0 step); [| lia]. destruct (Z.ltb_spec start stop); [reflexivity | lia].
Qed.

Lemma range_length_empty (start stop step : Z) :
  0 < step -> stop <= start -> range_length start stop step = 0.
Proof.
  intros Hstep Hle. unfold range_length.
  destruct (Z.ltb_spec 0 step); [| lia]. destruct (Z.ltb_spec start stop); [lia | reflexivity].
Qed.

Lemma range_length_nonneg (start stop step : Z) :
  0 < step -> 0 <= range_length start stop step.
Proof.
  intros Hstep. destruct (Z.lt_ge_cases start stop).
  - rewrite range_length_forward by lia.
    pose proof (Z.div_pos (stop - 1 - start) step ltac:(lia) ltac:(lia)). lia.
  - rewrite range_length_empty by lia. lia.
Qed.

Lemma py_range_lookup (start stop step : Z) (items : list Z) (k : nat) :
  py_range start stop step = Some items ->
  items !! k = if decide (Z.of_nat k < range_length start stop step)
               then Some (start + Z.of_nat k * step) else None.
Proof.
  unfold py_range. destruct (step =? 0); [discriminate |].
  intros Heq. inversion Heq; subst items. clear Heq.
  destruct (decide _) as [Hk | Hk].
  - change (map ?f ?l) with (f <$> l). rewrite list_lookup_fmap.
    rewrite lookup_seq_lt by lia. reflexivity.
  - apply lookup_ge_None_2. rewrite length_map, length_seq. lia.
Qed.

Lemma py_range_length (start stop step : Z) (items : list Z) :
  py_range start stop step = Some items ->
  length items = Z.to_nat (range_length start stop step).
Proof.
  unfold py_range. destruct (step =? 0); [discriminate |].
  intros Heq. inversion Heq. now rewrite length_map, length_seq.
Qed.

Lemma sample_frames_spec {F : Type} (snapshot_at : Z -> Mesh F) (frames : list Z) :
  forall (scene : Scene) (meshes : list (Mesh F)),
  fst (sample_frames snapshot_at frames scene meshes) = meshes ++ map snapshot_at frames /\
  frame_start (snd (sample_frames snapshot_at frames scene meshes)) = frame_start scene /\
  frame_end (snd (sample_frames snapshot_at frames scene meshes)) = frame_end scene /\
  frame_step (snd (sample_frames snapshot_at frames scene meshes)) = frame_step scene.
Proof.
  induction frames as [| i rest IH]; intros scene meshes; cbn [sample_frames].
  - cbn. now rewrite app_nil_r.
  - cbv zeta. destruct (IH (frame_set scene i) (meshes ++ [snapshot_at i])) as (Hm & Hs & He & Hp).
    cbn [frame_set frame_current] in *. rewrite Hm, Hs, He, Hp.
    cbn. now rewrite <- app_assoc.
Qed.

End SamplingFacts.

(** X1.  With a frame step of at least 1, [frame_range] samples
    exactly the frames [f] with [frame_start <= f <= frame_end] and
    [f - frame_start] a multiple of the step, in increasing order: the
    frame at position [k] is [frame_start + k * frame_step]. *)
Theorem frame_range_samples (scene : Scene) :
  1 <= frame_step scene ->
  exists frames,
    frame_range scene = Some frames /\
    (forall f, f ∈ frames <->
       frame_start scene <= f <= frame_end scene /\
       (f - frame_start scene) mod frame_step scene = 0) /\
    (forall k f, frames !! k = Some f -> f = frame_start scene + Z.of_nat k * frame_step scene).
Proof.
  intros Hstep. unfold frame_range.
  destruct (py_range (frame_start scene) (frame_end scene + 1) (frame_step scene))
    as [frames |] eqn:Erange.
  2: { unfold py_range in Erange. destruct (Z.eqb_spec (frame_step scene) 0); [lia | discriminate]. }
  exists frames. split; [reflexivity |].
  set (a := frame_start scene) in *. set (b := frame_end scene) in *.
  set (s := frame_step scene) in *.
  assert (Hlookup : forall k f, frames !! k = Some f ->
            Z.of_nat k < range_length a (b + 1) s /\ f = a + Z.of_nat k * s).
  { intros k f Hk. rewrite (SamplingFacts.py_range_lookup _ _ _ _ k Erange) in Hk.
    destruct (decide _); [| discriminate]. inversion Hk. auto. }
  split.
  - intros f. split.
    + intros Hin. apply list_elem_of_lookup in Hin as [k Hk].
      destruct (Hlookup k f Hk) as [Hlt ->].
      destruct (Z.lt_ge_cases a (b + 1)) as [Hab | Hab].
      * rewrite SamplingFacts.range_length_forward in Hlt by lia.
        replace (b + 1 - 1 - a) with (b - a) in Hlt by lia.
        assert (Z.of_nat k <= (b - a) / s) by lia.
        pose proof (Z.mul_div_le (b - a) s ltac:(lia)).
        assert (s * Z.of_nat k <= s * ((b - a) / s)) by (apply Z.mul_le_mono_nonneg_l; lia).
        split; [nia |].
        replace (a + Z.of_nat k * s - a) with (Z.of_nat k * s) by lia.
        apply Z.mod_mul. lia.
      * rewrite SamplingFacts.range_length_empty in Hlt by lia. lia.
    + intros [[Hlo Hhi] Hmod].
      apply Z.mod_divide in Hmod as [q Hq]; [| lia].
      assert (Hq0 : 0 <= q) by nia.
      apply list_elem_of_lookup. exists (Z.to_nat q).
      rewrite (SamplingFacts.py_range_lookup _ _ _ _ _ Erange).
      rewrite Z2Nat.id by lia.
      rewrite SamplingFacts.range_length_forward by lia.
      replace (b + 1 - 1 - a) with (b - a) by lia.
      assert (Hqle : q <= (b - a) / s) by (apply Z.div_le_lower_bound; lia).
      destruct (decide _); [f_equal; lia | lia].
  - intros k f Hk. now destruct (Hlookup k f Hk).
Qed.

Lemma frame_range_samples_witness :
  exists frames,
    frame_range (mkScene 1 10 3 7) = Some frames /\
    (7 ∈ frames <-> 1 <= 7 <= 10 /\ (7 - 1) mod 3 = 0).
Proof.
  destruct (frame_range_samples (mkScene 1 10 3 7) ltac:(cbn; lia)) as (frames & Hr & Hin & _).
  exists frames. split; [exact Hr | apply (Hin 7)].
Defined.

(** X2.  The frame count of line 441 is 0 exactly when [frame_end] is
    below [frame_start] and [(frame_end - frame_start) // frame_step + 1]
    otherwise, for a frame step of at least 1; with a step of 0
    [frame_range] raises. *)
Theorem frame_count_formula (scene : Scene) :
  (1 <= frame_step scene ->
   exists frames,
     frame_range scene = Some frames /\
     Z.of_nat (length frames) =
       (if frame_end scene <? frame_start scene then 0
        else (frame_end scene - frame_start scene) / frame_step scene + 1) /\
     (frames = [] <-> frame_end scene < frame_start scene)) /\
  (frame_step scene = 0 -> frame_range scene = None).
Proof.
  split.
  - intros Hstep. unfold frame_range.
    destruct (py_range (frame_start scene) (frame_end scene + 1) (frame_step scene))
      as [frames |] eqn:Erange.
    2: { unfold py_range in Erange.
         destruct (Z.eqb_spec (frame_step scene) 0); [lia | discriminate]. }
    exists frames. split; [reflexivity |].
    pose proof (SamplingFacts.py_range_length _ _ _ _ Erange) as Hlen.
    assert (Hcount : Z.of_nat (length frames) =
              if frame_end scene <? frame_start scene then 0
              else (frame_end scene - frame_start scene) / frame_step scene + 1).
    { rewrite Hlen. destruct (Z.ltb_spec (frame_end scene) (frame_start scene)).
      - rewrite SamplingFacts.range_length_empty by lia. reflexivity.
      - rewrite SamplingFacts.range_length_forward by lia.
        replace (frame_end scene + 1 - 1 - frame_start scene)
          with (frame_end scene - frame_start scene) by lia.
        pose proof (Z.div_pos (frame_end scene - frame_start scene) (frame_step scene)
                      ltac:(lia) ltac:(lia)).
        lia. }
    split; [exact Hcount |].
    destruct (Z.ltb_spec (frame_end scene) (frame_start scene)) as [Hlt | Hge].
    + split; [lia |]. intros _. destruct frames; [reflexivity | cbn in Hcount; lia].
    + pose proof (Z.div_pos (frame_end scene - frame_start scene) (frame_step scene)
                    ltac:(lia) ltac:(lia)).
      split; [| lia]. intros ->. cbn in Hcount. lia.
  - intros Hzero. unfold frame_range, py_range. now rewrite Hzero.
Qed.

Lemma frame_count_formula_witness :
  exists frames,
    frame_range (mkScene 1 10 3 7) = Some frames /\ Z.of_nat (length frames) = 4.
Proof.
  destruct (proj1 (frame_count_formula (mkScene 1 10 3 7)) ltac:(cbn; lia))
    as (frames & Hr & Hcount & _).
  exists frames. split; [exact Hr | exact Hcount].
Defined.

(** X3.  [get_per_frame_mesh_data] returns one mesh for each sampled
    frame, in order, the mesh at position [k] being the snapshot taken
    at frame [k] of [frame_range], and it leaves the scene as it found
    it: the current frame is set back. *)
Theorem per_frame_meshes_and_scene_restored
    (F : Type) (snapshot_at : Z -> Mesh F) (scene : Scene) :
  get_per_frame_mesh_data snapshot_at scene =
    (frames ← frame_range scene; Some (map snapshot_at frames, scene)).
Proof.
  unfold get_per_frame_mesh_data.
  destruct (frame_range scene) as [frames |]; [| reflexivity]. cbn.
  destruct (SamplingFacts.sample_frames_spec snapshot_at frames scene [])
    as (Hm & Hs & He & Hp).
  destruct (sample_frames snapshot_at frames scene []) as [meshes scene'].
  cbn in Hm, Hs, He, Hp. subst meshes.
  unfold frame_set. rewrite Hs, He, Hp. now destruct scene.
Qed.

(** ** When [get_vertex_data] returns, and what shared corners leave *)

Section ReturnFacts.
Context {F : Type} `{Scalar F} `{Mathutils F}.

Ltac bind_step Hrun x E :=
  cbn in Hrun;
  match type of Hrun with
  | context [mbind _ ?m] =>
      destruct m as [x |] eqn:E; cbn in Hrun; [| discriminate Hrun]
  end.

Lemma write_offsets_needs (original vs : list (MeshVertex F)) :
  forall (index start : nat) (offs offs' : list (Pixel F)),
  write_offsets original vs index start offs = Some offs' ->
  (index + length vs <= length original \/ vs = [])%nat.
Proof.
  induction vs as [| v rest IH]; intros index start offs offs' Hrun; [now right |].
  left. bind_step Hrun v0 Ev0. bind_step Hrun offs1 Eoffs1.
  apply lookup_lt_Some in Ev0.
  destruct (IH _ _ _ _ Hrun) as [Hle | ->]; cbn [length]; lia.
Qed.

Lemma write_rotations_needs (originalL ls : list (MeshLoop F)) :
  forall (index start : nat) (norms norms' : list (Pixel F)),
  write_rotations originalL ls index start norms = Some norms' ->
  (index + length ls <= length originalL \/ ls = [])%nat /\
  forallb frame_invertible ls = true.
Proof.
  induction ls as [| l rest IH]; intros index start norms norms' Hrun; [split; [now right | reflexivity] |].
  bind_step Hrun l0 El0. bind_step Hrun quat Equat. bind_step Hrun norms1 Enorms1.
  apply lookup_lt_Some in El0.
  destruct (IH _ _ _ _ Hrun) as [Hlen Hinv]. split.
  - left. destruct Hlen as [Hle | ->]; cbn [length]; lia.
  - cbn [forallb]. rewrite Hinv, andb_true_r.
    unfold frame_invertible. unfold loop_quat in Equat.
    destruct (inverted (frame_matrix l)); [reflexivity | discriminate].
Qed.

Lemma frames_loop_needs (original : list (MeshVertex F)) (originalL : list (MeshLoop F))
    (meshes : list (Mesh F)) :
  forall (start : nat) (offs norms offs' norms' : list (Pixel F)),
  frames_loop original originalL meshes start offs norms = Some (offs', norms') ->
  Forall (λ me, (length (vertices me) <= length original)%nat /\
                (length (loops me) <= length originalL)%nat) meshes /\
  frames_invertible meshes = true.
Proof.
  induction meshes as [| me rest IH]; intros start offs norms offs' norms' Hrun.
  - split; [constructor | reflexivity].
  - bind_step Hrun offs1 Eoffs1. bind_step Hrun norms1 Enorms1.
    destruct (IH _ _ _ _ _ Hrun) as [Hall Hinv].
    destruct (write_rotations_needs _ _ _ _ _ _ Enorms1) as [Hl Hi].
    pose proof (write_offsets_needs _ _ _ _ _ _ Eoffs1) as Hv.
    split.
    + constructor; [| assumption]. split.
      * destruct Hv as [Hv | ->]; cbn in *; lia.
      * destruct Hl as [Hl | ->]; cbn in *; lia.
    + unfold frames_invertible in *. cbn [forallb]. now rewrite Hi, Hinv.
Qed.

(** A frame leaves alone every slot that is not the slot of a vertex
    one of its corners refers to; the slot of such a vertex holds the
    quaternion of the last corner that refers to it. *)
Lemma write_rotations_last (originalL ls : list (MeshLoop F)) :
  forall (index start : nat) (norms norms' : list (Pixel F)),
  write_rotations originalL ls index start norms = Some norms' ->
  forall v,
    match last_corner ls index v with
    | Some (j, l) =>
        ls !! (j - index)%nat = Some l /\ (index <= j)%nat /\ vertex_index l = v /\
        exists l0 quat, originalL !! j = Some l0 /\ loop_quat l0 l = Some quat /\
          norms' !! (start + v)%nat = Some (quat_pixel quat)
    | None => norms' !! (start + v)%nat = norms !! (start + v)%nat
    end.
Proof.
  induction ls as [| l rest IH]; intros index start norms norms' Hrun v.
  - cbn in Hrun. inversion Hrun. reflexivity.
  - bind_step Hrun l0 El0. bind_step Hrun quat Equat. bind_step Hrun norms1 Enorms1.
    specialize (IH _ _ _ _ Hrun v). cbn [last_corner].
    destruct (last_corner rest (S index) v) as [[j lj] |].
    + destruct IH as (Hj & Hle & Hv & l0' & q' & Hl0 & Hq & Hslot).
      split; [| split; [lia | split; [assumption | eauto 6]]].
      replace (j - index)%nat with (S (j - S index)) by lia. exact Hj.
    + destruct (Nat.eqb_spec (vertex_index l) v) as [Heq | Hne].
      * split; [now rewrite Nat.sub_diag | split; [lia | split; [assumption |]]].
        exists l0, quat. split; [assumption | split; [assumption |]].
        rewrite IH, <- Heq. eapply np_set_same; eauto.
      * rewrite IH. eapply np_set_other; eauto. lia.
Qed.

Lemma write_rotations_above (originalL ls : list (MeshLoop F)) (vertex_count : nat) :
  forall (index start : nat) (norms norms' : list (Pixel F)),
  Forall (λ l, (vertex_index l < vertex_count)%nat) ls ->
  write_rotations originalL ls index start norms = Some norms' ->
  forall s, (start + vertex_count <= s)%nat -> norms' !! s = norms !! s.
Proof.
  induction ls as [| l rest IH]; intros index start norms norms' Hidx Hrun s Hs.
  - cbn in Hrun. now inversion Hrun.
  - apply Forall_cons in Hidx as [Hl Hrest].
    bind_step Hrun l0 El0. bind_step Hrun quat Equat. bind_step Hrun norms1 Enorms1.
    rewrite (IH _ _ _ _ Hrest Hrun s Hs). eapply np_set_other; eauto. lia.
Qed.

Lemma frames_loop_rotation_slots (original : list (MeshVertex F))
    (originalL : list (MeshLoop F)) (vertex_count corner_count : nat)
    (meshes : list (Mesh F)) :
  forall (start : nat) (offs norms offs' norms' : list (Pixel F)),
  forallb (mesh_ok vertex_count corner_count) meshes = true ->
  frames_loop original originalL meshes start offs norms = Some (offs', norms') ->
  forall f me v, meshes !! f = Some me -> (v < vertex_count)%nat ->
    match last_corner (loops me) 0 v with
    | Some (j, l) =>
        loops me !! j = Some l /\ vertex_index l = v /\
        exists l0 quat, originalL !! j = Some l0 /\ loop_quat l0 l = Some quat /\
          norms' !! (start + f * vertex_count + v)%nat = Some (quat_pixel quat)
    | None =>
        norms' !! (start + f * vertex_count + v)%nat
          = norms !! (start + f * vertex_count + v)%nat
    end.
Proof.
  induction meshes as [| me rest IH]; intros start offs norms offs' norms' Hok Hrun f m v Hm Hv.
  - now rewrite lookup_nil in Hm.
  - cbn in Hok. apply andb_true_iff in Hok as [Hme Hrest].
    apply mesh_ok_inv in Hme as (Hvc & _ & Hidx).
    bind_step Hrun offs1 Eoffs1. bind_step Hrun norms1 Enorms1.
    destruct f as [| f]; cbn in Hm.
    + inversion Hm; subst m.
      destruct (frames_loop_below _ _ _ _ _ _ _ _ Hrun) as (_ & _ & Hbelow).
      destruct (Hbelow (start + 0 * vertex_count + v)%nat ltac:(lia)) as [_ Hkeep].
      pose proof (write_rotations_last _ _ _ _ _ _ Enorms1 v) as Hlast.
      replace (start + 0 * vertex_count + v)%nat with (start + v)%nat in * by lia.
      destruct (last_corner (loops me) 0 v) as [[j l] |].
      * destruct Hlast as (Hj & _ & Hvi & l0 & quat & Hl0 & Hq & Hslot).
        rewrite Nat.sub_0_r in Hj. rewrite Hkeep. eauto 8.
      * now rewrite Hkeep.
    + specialize (IH _ _ _ _ _ Hrest Hrun f m v Hm Hv).
      replace (start + S f * vertex_count + v)%nat
        with (start + length (vertices me) + f * vertex_count + v)%nat by lia.
      destruct (last_corner (loops m) 0 v) as [[j l] |]; [exact IH |].
      rewrite IH. eapply write_rotations_above; eauto. lia.
Qed.

End ReturnFacts.

Section SharedCorners.
Context {F : Type} `{Scalar F} `{Mathutils F}.

Lemma last_corner_None_inv (ls : list (MeshLoop F)) :
  forall (index v : nat), last_corner ls index v = None ->
  forall k l, ls !! k = Some l -> vertex_index l <> v.
Proof.
  induction ls as [| a rest IH]; intros index v Hnone k l Hk.
  - now rewrite lookup_nil in Hk.
  - cbn [last_corner] in Hnone.
    destruct (last_corner rest (S index) v) eqn:Erest; [discriminate |].
    destruct (Nat.eqb_spec (vertex_index a) v) as [Heq | Hne]; [discriminate |].
    destruct k as [| k]; cbn in Hk; [inversion Hk; now subst | eauto].
Qed.

Lemma last_corner_Some (ls : list (MeshLoop F)) :
  forall (index v j : nat) (l : MeshLoop F),
  last_corner ls index v = Some (j, l) ->
  (index <= j)%nat /\ ls !! (j - index)%nat = Some l /\ vertex_index l = v /\
  (forall k l', ls !! k = Some l' -> vertex_index l' = v -> (index + k <= j)%nat).
Proof.
  induction ls as [| l0 rest IH]; intros index v j l Hlast; [discriminate |].
  cbn [last_corner] in Hlast.
  destruct (last_corner rest (S index) v) as [[j' l'] |] eqn:Erest.
  - inversion Hlast; subst j' l'.
    destruct (IH _ _ _ _ Erest) as (Hle & Hj & Hv & Hmax).
    split; [lia | split; [| split; [assumption |]]].
    + replace (j - index)%nat with (S (j - S index)) by lia. exact Hj.
    + intros [| k] m Hk Hm; [lia |]. cbn in Hk. specialize (Hmax k m Hk Hm). lia.
  - destruct (Nat.eqb_spec (vertex_index l0) v) as [Heq | Hne]; [| discriminate].
    inversion Hlast; subst j l.
    split; [lia | split; [now rewrite Nat.sub_diag | split; [assumption |]]].
    intros [| k] m Hk Hm; [lia |]. cbn in Hk. exfalso.
    exact (last_corner_None_inv rest (S index) v Erest k m Hk Hm).
Qed.

Lemma last_corner_None (ls : list (MeshLoop F)) (index v : nat) :
  (forall l, l ∈ ls -> vertex_index l <> v) -> last_corner ls index v = None.
Proof.
  revert index. induction ls as [| l0 rest IH]; intros index Hfree; [reflexivity |].
  cbn [last_corner]. rewrite IH by (intros l Hl; apply Hfree; now constructor).
  destruct (Nat.eqb_spec (vertex_index l0) v) as [Heq | Hne]; [| reflexivity].
  exfalso. apply (Hfree l0); [constructor | assumption].
Qed.

Lemma rotation_slot_general (meshes : list (Mesh F)) (vertex_count : nat) (hv hf : Z)
    (offsets normals : list F) (f v : nat) (me m0 : Mesh F) :
  well_formed meshes vertex_count = true ->
  get_vertex_data meshes hv hf = Some (offsets, normals) ->
  meshes !! f = Some me -> meshes !! 0%nat = Some m0 -> (v < vertex_count)%nat ->
  match last_corner (loops me) 0 v with
  | Some (j, l) =>
      exists l0 quat, loops m0 !! j = Some l0 /\ loop_quat l0 l = Some quat /\
        pixel_at normals (1 + f * vertex_count + v)%nat = Some (quat_pixel quat)
  | None => pixel_at normals (1 + f * vertex_count + v)%nat = Some zero_pixel
  end.
Proof.
  intros Hwf Hrun Hf H0' Hv.
  destruct (get_vertex_data_rows _ _ _ _ _ Hrun) as (offs & norms & Hrows & -> & ->).
  rewrite pixel_at_flatten.
  destruct (well_formed_inv _ _ Hwf) as (m0' & rest & -> & Hvc & Hok).
  cbn in H0'. inversion H0'; subst m0'.
  rewrite vertex_data_rows_unfold in Hrows.
  pose proof (frames_loop_rotation_slots _ _ _ _ _ _ _ _ _ _ Hok Hrows f me v Hf Hv) as Hslot.
  destruct (last_corner (loops me) 0 v) as [[j l] |].
  - destruct Hslot as (_ & _ & l0 & quat & Hl0 & Hq & Hs). eauto.
  - rewrite Hslot. apply lookup_lt_Some in Hf.
    rewrite list_lookup_insert_ne by lia.
    unfold np_zeros. apply lookup_replicate_2. rewrite Hvc. nia.
Qed.

End SharedCorners.



(** X5.  Whenever [get_vertex_data] returns, the list of snapshots is
    not empty, no snapshot has more vertices or more corners than frame
    0, no frame matrix is singular, and both returned buffers hold
    [4 * (len(original) * len(meshes) + 1)] values; on any other input
    it raises. *)
Theorem get_vertex_data_return_conditions
    (F : Type) (SF : Scalar F) (MF : Mathutils F)
    (meshes : list (Mesh F)) (hv hf : Z) (offsets normals : list F) :
  get_vertex_data meshes hv hf = Some (offsets, normals) ->
  exists m0,
    meshes !! 0%nat = Some m0 /\
    Forall (λ me, (length (vertices me) <= length (vertices m0))%nat /\
                  (length (loops me) <= length (loops m0))%nat) meshes /\
    frames_invertible meshes = true /\
    length offsets = (4 * (length (vertices m0) * length meshes + 1))%nat /\
    length normals = (4 * (length (vertices m0) * length meshes + 1))%nat.
Proof.
  intros Hrun.
  destruct (get_vertex_data_rows _ _ _ _ _ Hrun) as (offs & norms & Hrows & -> & ->).
  destruct (vertex_data_rows_header _ _ _ _ _ Hrows) as (_ & _ & m0 & Hm0 & Hlo & Hln).
  exists m0. split; [assumption |].
  destruct meshes as [| m0' rest]; [discriminate |]. cbn in Hm0. inversion Hm0; subst m0'.
  rewrite vertex_data_rows_unfold in Hrows.
  destruct (frames_loop_needs _ _ _ _ _ _ _ _ Hrows) as [Hall Hinv].
  split; [assumption | split; [assumption |]].
  rewrite !flatten_length, Hlo, Hln. auto.
Qed.

Lemma get_vertex_data_return_conditions_witness :
  exists offsets normals,
    get_vertex_data FloatModel.example_meshes 3 2 = Some (offsets, normals) /\
    length offsets = 28%nat.
Proof.
  destruct (get_vertex_data FloatModel.example_meshes 3 2) as [[offsets normals] |] eqn:Hrun;
    [| vm_compute in Hrun; discriminate Hrun].
  exists offsets, normals. split; [reflexivity |].
  destruct (get_vertex_data_return_conditions float _ _ FloatModel.example_meshes 3 2
              offsets normals Hrun) as (m0 & Hm0 & _ & _ & Hlo & _).
  cbn in Hm0. inversion Hm0; subst m0. exact Hlo.
Defined.

(** X6.  Without the one-corner-per-vertex assumption: when several
    corners of a snapshot refer to the same vertex [v], the rotation
    slot [1 + f*vertex_count + v] holds the quaternion of the last of
    them in the order of [me.loops] (each corner overwrites the slot of
    its vertex), computed against the corner with the same index in
    frame 0. *)
Theorem shared_vertex_keeps_last_corner
    (F : Type) (SF : Scalar F) (MF : Mathutils F)
    (meshes : list (Mesh F)) (vertex_count : nat) (hv hf : Z)
    (offsets normals : list F) (f v j : nat) (snapshot reference : Mesh F) (l : MeshLoop F) :
  well_formed meshes vertex_count = true ->
  get_vertex_data meshes hv hf = Some (offsets, normals) ->
  meshes !! f = Some snapshot -> meshes !! 0%nat = Some reference ->
  loops snapshot !! j = Some l -> vertex_index l = v ->
  (forall k l', loops snapshot !! k = Some l' -> vertex_index l' = v -> (k <= j)%nat) ->
  exists l0 Mi,
    loops reference !! j = Some l0 /\
    inverted (frame_matrix l) = Some Mi /\
    pixel_at normals (1 + f * vertex_count + v)%nat =
      Some (quat_pixel (to_quaternion (matmul Mi (frame_matrix l0)))).
Proof.
  intros Hwf Hrun Hf H0 Hj Hv Hlast.
  assert (Hvlt : (v < vertex_count)%nat).
  { destruct (well_formed_inv _ _ Hwf) as (m0 & rest & Hm & _ & Hok).
    rewrite forallb_forall in Hok.
    assert (Hme : mesh_ok vertex_count (length (loops m0)) snapshot = true)
      by (apply Hok, list_elem_of_In; eapply list_elem_of_lookup_2; eauto).
    apply mesh_ok_inv in Hme as (_ & _ & Hidx). rewrite Forall_forall in Hidx.
    rewrite <- Hv. apply Hidx. eapply list_elem_of_lookup_2; eauto. }
  pose proof (rotation_slot_general meshes vertex_count hv hf offsets normals f v
                snapshot reference Hwf Hrun Hf H0 Hvlt) as Hslot.
  destruct (last_corner (loops snapshot) 0 v) as [[j' l'] |] eqn:Elast.
  - destruct (last_corner_Some _ _ _ _ _ Elast) as (_ & Hj' & Hv' & Hmax).
    rewrite Nat.sub_0_r in Hj'.
    assert (j' = j).
    { pose proof (Hmax j l Hj Hv). pose proof (Hlast j' l' Hj' Hv'). lia. }
    subst j'. rewrite Hj in Hj'. inversion Hj'; subst l'.
    destruct Hslot as (l0 & quat & Hl0 & Hq & Hs).
    unfold loop_quat in Hq.
    destruct (inverted (frame_matrix l)) as [Mi |]; [| discriminate].
    cbn in Hq. inversion Hq; subst quat. eauto.
  - exfalso. exact (last_corner_None_inv _ _ _ Elast j l Hj Hv).
Qed.

Lemma shared_vertex_keeps_last_corner_witness :
  exists offsets normals,
    get_vertex_data FloatModel.shared_corner_meshes 3 2 = Some (offsets, normals) /\
    pixel_at normals (1 + 1 * 3 + 0)%nat = Some (px 0 0 1 0)%float.
Proof.
  destruct (get_vertex_data FloatModel.shared_corner_meshes 3 2)
    as [[offsets normals] |] eqn:Hrun; [| vm_compute in Hrun; discriminate Hrun].
  exists offsets, normals. split; [reflexivity |].
  destruct (shared_vertex_keeps_last_corner float _ _ FloatModel.shared_corner_meshes 3%nat 3 2
              offsets normals 1%nat 0%nat 2%nat
              (mkMesh [FloatModel.vertex 0 0 0; FloatModel.vertex 1 0 0; FloatModel.vertex 0 1 0]
                 [ mkLoop 0%nat (FloatModel.vec 0 0 1) (FloatModel.vec 1 0 0);
                   mkLoop 1%nat (FloatModel.vec 0 0 1) (FloatModel.vec 1 0 0);
                   mkLoop 0%nat (FloatModel.vec 0 0 1) (FloatModel.vec (-1) 0 0) ])
              (mkMesh [FloatModel.vertex 0 0 0; FloatModel.vertex 1 0 0; FloatModel.vertex 0 1 0]
                 [ mkLoop 0%nat (FloatModel.vec 0 0 1) (FloatModel.vec 1 0 0);
                   mkLoop 1%nat (FloatModel.vec 0 0 1) (FloatModel.vec 1 0 0);
                   mkLoop 0%nat (FloatModel.vec 0 0 1) (FloatModel.vec 1 0 0) ])
              (mkLoop 0%nat (FloatModel.vec 0 0 1) (FloatModel.vec (-1) 0 0))
              eq_refl Hrun eq_refl eq_refl eq_refl eq_refl)%float
    as (l0 & Mi & Hl0 & HMi & Hslot).
  - intros k l' Hk _. apply lookup_lt_Some in Hk. cbn in Hk. lia.
  - cbn in Hl0. inversion Hl0; subst l0.
    vm_compute in HMi. inversion HMi; subst Mi. exact Hslot.
Defined.

(** X7.  A vertex that no corner of a snapshot refers to (a loose
    vertex) gets no rotation: its slot [1 + f*vertex_count + v] in the
    rotation buffer keeps the (0,0,0,0) the array was created with,
    which is not a unit quaternion. *)
Theorem loose_vertex_keeps_zero_rotation
    (F : Type) (SF : Scalar F) (MF : Mathutils F)
    (meshes : list (Mesh F)) (vertex_count : nat) (hv hf : Z)
    (offsets normals : list F) (f v : nat) (snapshot : Mesh F) :
  well_formed meshes vertex_count = true ->
  get_vertex_data meshes hv hf = Some (offsets, normals) ->
  meshes !! f = Some snapshot -> (v < vertex_count)%nat ->
  (forall l, l ∈ loops snapshot -> vertex_index l <> v) ->
  pixel_at normals (1 + f * vertex_count + v)%nat = Some (px fzero fzero fzero fzero).
Proof.
  intros Hwf Hrun Hf Hv Hfree.
  destruct (well_formed_inv _ _ Hwf) as (m0 & rest & Hm & _ & _).
  assert (H0 : meshes !! 0%nat = Some m0) by now rewrite Hm.
  pose proof (rotation_slot_general meshes vertex_count hv hf offsets normals f v
                snapshot m0 Hwf Hrun Hf H0 Hv) as Hslot.
  now rewrite (last_corner_None _ 0 v Hfree) in Hslot.
Qed.

Lemma loose_vertex_keeps_zero_rotation_witness :
  exists offsets normals,
    get_vertex_data FloatModel.shared_corner_meshes 3 2 = Some (offsets, normals) /\
    pixel_at normals (1 + 1 * 3 + 2)%nat = Some (px 0 0 0 0)%float.
Proof.
  destruct (get_vertex_data FloatModel.shared_corner_meshes 3 2)
    as [[offsets normals] |] eqn:Hrun; [| vm_compute in Hrun; discriminate Hrun].
  exists offsets, normals. split; [reflexivity |].
  apply (loose_vertex_keeps_zero_rotation float _ _ FloatModel.shared_corner_meshes 3%nat 3 2
           offsets normals 1%nat 2%nat
           (mkMesh [FloatModel.vertex 0 0 0; FloatModel.vertex 1 0 0; FloatModel.vertex 0 1 0]
              [ mkLoop 0%nat (FloatModel.vec 0 0 1) (FloatModel.vec 1 0 0);
                mkLoop 1%nat (FloatModel.vec 0 0 1) (FloatModel.vec 1 0 0);
                mkLoop 0%nat (FloatModel.vec 0 0 1) (FloatModel.vec (-1) 0 0) ])%float
           eq_refl Hrun eq_refl ltac:(lia)).
  intros l Hl. cbn [loops] in Hl.
  repeat (apply elem_of_cons in Hl as [-> | Hl]; [cbn; lia |]).
  now apply elem_of_nil in Hl.
Defined.

(** ** Image sizes, texel addresses and the operator as a whole *)

Section ImageFacts.
Context {F : Type} `{Scalar F} `{Mathutils F}.

Lemma concat_length_rect (height width : nat) (grid : list (list (Pixel F))) :
  rect height width grid -> length (concat grid) = (height * width)%nat.
Proof.
  intros [<- Hrows]. induction Hrows as [| row rest Hrow _ IH]; [reflexivity |].
  cbn. rewrite length_app, IH, Hrow. lia.
Qed.

(** Distinct cells inside a grid are no more than the grid has. *)
Lemma cells_fit (n height width : nat) :
  NoDup (map cell (seq 0 n)) ->
  (forall idx, (idx < n)%nat -> (morton_y idx < height)%nat /\ (morton_x idx < width)%nat) ->
  (n <= height * width)%nat.
Proof.
  intros Hnd Hin.
  assert (Hsub : map cell (seq 0 n) ⊆+ list_prod (seq 0 height) (seq 0 width)).
  { apply NoDup_submseteq; [assumption |].
    intros c Hc. apply cell_in_range in Hc as (idx & Hidx & <-).
    apply list_elem_of_In, in_prod_iff. destruct (Hin idx Hidx).
    unfold cell. split; apply in_seq; lia. }
  apply submseteq_length in Hsub.
  now rewrite length_map, length_seq, length_prod, !length_seq in Hsub.
Qed.

Lemma zcurve_layout_shape (offs norms : list (Pixel F))
    (imageWidth imageHeight : Z) (offsets' normals' : list F) :
  length norms = length offs -> Z.of_nat (length offs) <= 2 ^ 32 ->
  (0 < length offs)%nat ->
  zcurve_layout (flatten offs) (flatten norms)
    = Some (imageWidth, imageHeight, offsets', normals') ->
  32 <= imageWidth /\ 32 <= imageHeight /\
  imageWidth mod 32 = 0 /\ imageHeight mod 32 = 0 /\
  Z.of_nat (length offsets') = 4 * (imageWidth * imageHeight) /\
  Z.of_nat (length normals') = 4 * (imageWidth * imageHeight) /\
  Z.of_nat (length offs) <= imageWidth * imageHeight.
Proof.
  intros Hlen Hn Hpos. unfold zcurve_layout. rewrite flatten_div4. intros Hrun.
  destruct (zcurve_size (length offs)) as [[W Hh] |] eqn:Esize; [| discriminate].
  cbn in Hrun.
  destruct (zcurve_loop _ _ _ _ _) as [[og ng] |] eqn:Eloop; [| discriminate].
  cbn in Hrun. inversion Hrun; subst imageWidth imageHeight offsets' normals'. clear Hrun.
  pose proof (LayoutFacts.zcurve_size_bounds _ _ _ Esize) as Hbounds.
  destruct (LayoutFacts.zcurve_size_spec _ _ _ Esize) as (ix & iy & _ & _ & _ & HW & HH).
  unfold imageWidthGranularity, imageHeightGranularity in HW, HH.
  pose proof (LayoutFacts.round_up_32 (Morton.DecodeMorton2X (Z.of_nat ix) + 1)) as [HWm HWb].
  pose proof (LayoutFacts.round_up_32 (Morton.DecodeMorton2Y (Z.of_nat iy) + 1)) as [HHm HHb].
  rewrite <- HW in HWm, HWb. rewrite <- HH in HHm, HHb.
  pose proof (MortonFacts.DecodeMorton2X_range (Z.of_nat ix)).
  pose proof (MortonFacts.DecodeMorton2Y_range (Z.of_nat iy)).
  assert (HW32 : 32 <= W).
  { apply Z.mod_divide in HWm as [k Hk]; [| lia]. lia. }
  assert (HH32 : 32 <= Hh).
  { apply Z.mod_divide in HHm as [k Hk]; [| lia]. lia. }
  destruct (zcurve_loop_spec _ _ _ _ _ _ _ _ _
              (grid_zeros_rect _ _) (grid_zeros_rect _ _) (cells_NoDup _ Hn) Eloop)
    as (Hog & Hng & _ & _).
  assert (Hfit : (length offs <= Z.to_nat Hh * Z.to_nat W)%nat).
  { apply cells_fit; [now apply cells_NoDup |].
    intros idx Hidx. destruct (Hbounds idx Hidx). unfold morton_x, morton_y. lia. }
  unfold grid_flatten. rewrite !flatten_length.
  rewrite (concat_length_rect _ _ _ Hog), (concat_length_rect _ _ _ Hng).
  repeat (split; [first [assumption | lia | nia] |]). nia.
Qed.

Lemma sampled_meshes {G : Type} (snapshot_at : Z -> Mesh G) (scene : Scene) (frames : list Z) :
  frame_range scene = Some frames ->
  get_per_frame_mesh_data snapshot_at scene = Some (map snapshot_at frames, scene).
Proof.
  intros Hr. unfold get_per_frame_mesh_data. rewrite Hr. cbn.
  destruct (SamplingFacts.sample_frames_spec snapshot_at frames scene [])
    as (Hm & Hs & He & Hp).
  destruct (sample_frames snapshot_at frames scene []) as [meshes scene'].
  cbn in Hm, Hs, He, Hp. subst meshes.
  unfold frame_set. rewrite Hs, He, Hp. now destruct scene.
Qed.

End ImageFacts.

(** X8.  In Z-curve mode every image [execute] finishes with has a
    width and a height that are multiples of 32 and at least 32, both
    buffers hold exactly [4 * width * height] values, as an image of
    that size takes, and the image has room for every pixel:
    [width * height >= vertex_count * frame_count + 1]. *)
Theorem zcurve_image_shape
    (F : Type) (SF : Scalar F) (MF : Mathutils F)
    (mods : list string) (vertex_count : nat) (meshes : list (Mesh F))
    (offsets normals : list F) :
  modifier_check mods = None ->
  capacity_check (Z.of_nat vertex_count) (Z.of_nat (length meshes)) = None ->
  well_formed meshes vertex_count = true ->
  get_vertex_data meshes (Z.of_nat vertex_count) (Z.of_nat (length meshes))
    = Some (offsets, normals) ->
  exists imageWidth imageHeight offsets' normals',
    execute mods (Z.of_nat vertex_count) (Z.of_nat (length meshes)) meshes true
      = FINISHED imageWidth imageHeight offsets' normals' /\
    32 <= imageWidth /\ 32 <= imageHeight /\
    imageWidth mod 32 = 0 /\ imageHeight mod 32 = 0 /\
    Z.of_nat (length offsets') = 4 * (imageWidth * imageHeight) /\
    Z.of_nat (length normals') = 4 * (imageWidth * imageHeight) /\
    Z.of_nat vertex_count * Z.of_nat (length meshes) + 1 <= imageWidth * imageHeight.
Proof.
  intros Hmods Hcap Hwf Hrun.
  destruct (execute_zcurve_run mods vertex_count meshes offsets normals Hmods Hcap Hwf Hrun)
    as (offs & norms & W & Hh & o' & n' & -> & -> & Hlo & Hln & Hbudget & Elay & Hexec).
  exists W, Hh, o', n'. split; [exact Hexec |].
  assert (Hn32 : Z.of_nat (length offs) <= 2 ^ 32) by (change (2 ^ 32) with 4294967296; lia).
  destruct (zcurve_layout_shape offs norms W Hh o' n' Hln Hn32 ltac:(lia) Elay)
    as (? & ? & ? & ? & ? & ? & Harea).
  repeat (split; [assumption |]). rewrite Hlo in Harea. lia.
Qed.

Lemma zcurve_image_shape_witness :
  exists imageWidth imageHeight offsets' normals',
    execute [] 3 2 FloatModel.example_meshes true
      = FINISHED imageWidth imageHeight offsets' normals' /\
    Z.of_nat (length offsets') = 4 * (imageWidth * imageHeight) /\
    3 * 2 + 1 <= imageWidth * imageHeight.
Proof.
  destruct (get_vertex_data FloatModel.example_meshes 3 2) as [[offsets normals] |] eqn:Hrun;
    [| vm_compute in Hrun; discriminate Hrun].
  destruct (zcurve_image_shape float _ _ [] 3%nat FloatModel.example_meshes
              offsets normals eq_refl eq_refl eq_refl Hrun)
    as (W & Hh & o' & n' & Hexec & _ & _ & _ & _ & Hlen & _ & Harea).
  exists W, Hh, o', n'. split; [exact Hexec | split; [exact Hlen | exact Harea]].
Defined.

(** X9.  In Z-curve mode the texel of vertex [v] at frame [f] is the
    cell [MortonDecode(1 + f*vertex_count + v)] of the offset image and
    holds the position difference of C1, and the cell (0,0) of both
    images holds the header pixel. *)
Theorem zcurve_texel_address
    (F : Type) (SF : Scalar F) (MF : Mathutils F)
    (mods : list string) (vertex_count : nat) (meshes : list (Mesh F))
    (offsets normals : list F) :
  modifier_check mods = None ->
  capacity_check (Z.of_nat vertex_count) (Z.of_nat (length meshes)) = None ->
  well_formed meshes vertex_count = true ->
  get_vertex_data meshes (Z.of_nat vertex_count) (Z.of_nat (length meshes))
    = Some (offsets, normals) ->
  exists imageWidth imageHeight offsets' normals',
    execute mods (Z.of_nat vertex_count) (Z.of_nat (length meshes)) meshes true
      = FINISHED imageWidth imageHeight offsets' normals' /\
    image_cell imageWidth offsets' 0 0
      = Some (header_pixel (Z.of_nat vertex_count) (Z.of_nat (length meshes))) /\
    image_cell imageWidth normals' 0 0
      = Some (header_pixel (Z.of_nat vertex_count) (Z.of_nat (length meshes))) /\
    forall (f v : nat) (snapshot reference : Mesh F) (p p0 : MeshVertex F),
      meshes !! f = Some snapshot -> meshes !! 0%nat = Some reference ->
      vertices snapshot !! v = Some p -> vertices reference !! v = Some p0 ->
      let (x, y) := Morton.MortonDecode (Z.of_nat (1 + f * vertex_count + v)) in
      image_cell imageWidth offsets' x y = Some (offset_pixel (vsub (co p) (co p0))).
Proof.
  intros Hmods Hcap Hwf Hrun.
  destruct (execute_zcurve_run mods vertex_count meshes offsets normals Hmods Hcap Hwf Hrun)
    as (offs & norms & W & Hh & o' & n' & Ho & Hn & Hlo & Hln & Hbudget & Elay & Hexec).
  subst offsets normals.
  exists W, Hh, o', n'. split; [exact Hexec |].
  assert (Hn32 : Z.of_nat (length offs) <= 2 ^ 32) by (change (2 ^ 32) with 4294967296; lia).
  destruct (zcurve_layout_spec offs norms W Hh o' n' Hln Hn32 Elay) as (_ & Hcells & _).
  destruct (get_vertex_data_rows _ _ _ _ _ Hrun) as (offs' & norms' & Hrows & Heqo & Heqn).
  assert (offs' = offs /\ norms' = norms) as [-> ->].
  { split.
    - apply list_eq. intros i. now rewrite <- !pixel_at_flatten, Heqo.
    - apply list_eq. intros i. now rewrite <- !pixel_at_flatten, Heqn. }
  destruct (vertex_data_rows_header _ _ _ _ _ Hrows) as (Hh0 & Hn0 & _).
  destruct (vertex_data_rows_spec _ _ _ _ _ _ Hwf Hrows) as (Hoffs & _).
  destruct (Hcells 0%nat ltac:(lia)) as [Hc0 Hc0'].
  change (Morton.DecodeMorton2X (Z.of_nat 0)) with 0 in Hc0, Hc0'.
  change (Morton.DecodeMorton2Y (Z.of_nat 0)) with 0 in Hc0, Hc0'.
  split; [now rewrite Hc0 | split; [now rewrite Hc0' |]].
  intros f v snapshot reference p p0 Hf H0 Hv Hv0. unfold Morton.MortonDecode.
  assert (Hidx : (1 + f * vertex_count + v < length offs)%nat).
  { pose proof (lookup_lt_Some _ _ _ Hf) as Hflt. pose proof (lookup_lt_Some _ _ _ Hv) as Hvlt.
    destruct (well_formed_inv _ _ Hwf) as (m0 & rest & Hm & _ & Hok).
    rewrite forallb_forall in Hok.
    assert (Hme : mesh_ok vertex_count (length (loops m0)) snapshot = true)
      by (apply Hok, list_elem_of_In; eapply list_elem_of_lookup_2; eauto).
    apply mesh_ok_inv in Hme as (Hvc & _ & _). rewrite Hlo. nia. }
  destruct (Hcells _ Hidx) as [-> _].
  exact (Hoffs f snapshot reference v p p0 Hf H0 Hv Hv0).
Qed.

Lemma zcurve_texel_address_witness :
  exists imageWidth imageHeight offsets' normals',
    execute [] 3 2 FloatModel.example_meshes true
      = FINISHED imageWidth imageHeight offsets' normals' /\
    image_cell imageWidth offsets' 0 0 = Some (px (-2048) (-2045) (-2046) 1)%float.
Proof.
  destruct (get_vertex_data FloatModel.example_meshes 3 2) as [[offsets normals] |] eqn:Hrun;
    [| vm_compute in Hrun; discriminate Hrun].
  destruct (zcurve_texel_address float _ _ [] 3%nat FloatModel.example_meshes
              offsets normals eq_refl eq_refl eq_refl Hrun)
    as (W & Hh & o' & n' & Hexec & Hhead & _).
  exists W, Hh, o', n'. split; [exact Hexec | exact Hhead].
Defined.

(** X10.  The operator in linear mode, from the scene to the image:
    when the checks pass on well-formed snapshots with invertible frame
    matrices, it finishes with an image as wide as the objects have
    vertices and as high as [frame_range] has frames, the cell in
    column [v] and row [k] is the position of vertex [v] at the [k]-th
    sampled frame minus its position at [frame_start], and the scene is
    left at the frame it was at. *)
Theorem operator_linear_image
    (F : Type) (SF : Scalar F) (MF : Mathutils F) (snapshot_at : Z -> Mesh F)
    (mods : list string) (object_vertices : list nat) (scene : Scene) (frames : list Z) :
  frame_range scene = Some frames ->
  modifier_check mods = None ->
  capacity_check (Z.of_nat (foldr Nat.add 0%nat object_vertices))
                 (Z.of_nat (length frames)) = None ->
  well_formed (map snapshot_at frames) (foldr Nat.add 0%nat object_vertices) = true ->
  frames_invertible (map snapshot_at frames) = true ->
  exists offsets' normals',
    run_operator snapshot_at mods object_vertices scene false =
      (FINISHED (Z.of_nat (foldr Nat.add 0%nat object_vertices)) (Z.of_nat (length frames))
                offsets' normals', scene) /\
    forall (k v : nat) (frame : Z) (p p0 : MeshVertex F),
      frames !! k = Some frame ->
      vertices (snapshot_at frame) !! v = Some p ->
      vertices (snapshot_at (frame_start scene)) !! v = Some p0 ->
      image_cell (Z.of_nat (foldr Nat.add 0%nat object_vertices)) offsets'
                 (Z.of_nat v) (Z.of_nat k)
        = Some (offset_pixel (vsub (co p) (co p0))).
Proof.
  intros Hr Hmods Hcap Hwf Hinv.
  set (vertex_count := foldr Nat.add 0%nat object_vertices) in *.
  set (meshes := map snapshot_at frames) in *.
  assert (Hlen : length meshes = length frames) by apply length_map.
  destruct (get_vertex_data_total meshes vertex_count
              (Z.of_nat vertex_count) (Z.of_nat (length frames)) Hwf Hinv)
    as [[offsets normals] Hrun].
  exists (drop 4 offsets), (drop 4 normals). split.
  - unfold run_operator. rewrite Hr. fold vertex_count. rewrite Hmods, Hcap.
    rewrite (sampled_meshes snapshot_at scene frames Hr). fold meshes.
    unfold execute. now rewrite Hmods, Hcap, Hrun.
  - intros k v frame p p0 Hk Hv Hv0.
    destruct (get_vertex_data_rows _ _ _ _ _ Hrun) as (offs & norms & Hrows & -> & ->).
    destruct (vertex_data_rows_spec _ _ _ _ _ _ Hwf Hrows) as (Hoffs & _).
    unfold image_cell. rewrite pixel_at_drop4, pixel_at_flatten.
    replace (S (Z.to_nat (Z.of_nat k * Z.of_nat vertex_count + Z.of_nat v)))
      with (1 + k * vertex_count + v)%nat by lia.
    assert (Hmk : meshes !! k = Some (snapshot_at frame)).
    { unfold meshes. change (map ?g ?l) with (g <$> l). now rewrite list_lookup_fmap, Hk. }
    assert (Hm0 : meshes !! 0%nat = Some (snapshot_at (frame_start scene))).
    { unfold meshes. change (map ?g ?l) with (g <$> l). rewrite list_lookup_fmap.
      unfold frame_range in Hr.
      rewrite (SamplingFacts.py_range_lookup _ _ _ _ 0%nat Hr).
      destruct (decide _) as [Hpos | Hnone].
      - cbn. do 2 f_equal. lia.
      - exfalso. apply lookup_lt_Some in Hk.
        rewrite (SamplingFacts.py_range_length _ _ _ _ Hr) in Hk. lia. }
    exact (Hoffs k _ _ v p p0 Hmk Hm0 Hv Hv0).
Qed.

Lemma operator_linear_image_witness :
  let snapshot_at := fun i : Z =>
    mkMesh [FloatModel.vertex 0 0 (PrimFloat.of_uint63 (Uint63.of_Z i))]
           [mkLoop 0%nat (FloatModel.vec 0 0 1) (FloatModel.vec 1 0 0)] in
  exists offsets' normals',
    run_operator snapshot_at [] [1%nat] (mkScene 1 5 2 3) false =
      (FINISHED 1 3 offsets' normals', mkScene 1 5 2 3) /\
    image_cell 1 offsets' 0 2 = Some (px 0 0 4 1)%float.
Proof.
  cbv zeta.
  destruct (operator_linear_image float FloatModel.float_scalar FloatModel.float_mathutils
              (fun i : Z =>
                 mkMesh [FloatModel.vertex 0 0 (PrimFloat.of_uint63 (Uint63.of_Z i))]
                        [mkLoop 0%nat (FloatModel.vec 0 0 1) (FloatModel.vec 1 0 0)])
              [] [1%nat] (mkScene 1 5 2 3) [1; 3; 5]
              eq_refl eq_refl eq_refl eq_refl eq_refl)
    as (o' & n' & Hexec & Hcells).
  exists o', n'. split; [exact Hexec |].
  exact (Hcells 2%nat 0%nat 5 (FloatModel.vertex 0 0 5) (FloatModel.vertex 0 0 1)
           eq_refl eq_refl eq_refl).
Defined.



(** X12.  The modifier check passes exactly when every modifier type
    is one of the sixteen allowed ones; otherwise it reports the first
    modifier, in the order the objects list them, that is not allowed,
    and [execute] is cancelled with it whatever the two counts are: the
    modifier check comes before the capacity checks. *)
Theorem modifier_check_reports_first_offender (mods : list string) :
  (modifier_check mods = None <-> forall m, m ∈ mods -> m ∈ allowed_modifiers) /\
  (forall why, modifier_check mods = Some why <->
     exists before m after,
       why = ModifierNotAllowed m /\ mods = before ++ m :: after /\
       (forall a, a ∈ before -> a ∈ allowed_modifiers) /\ m ∉ allowed_modifiers) /\
  (forall (F : Type) (SF : Scalar F) (MF : Mathutils F)
      (vertex_count frame_count : Z) (meshes : list (Mesh F)) (zcurve : bool) (why : Failure),
      modifier_check mods = Some why ->
      execute mods vertex_count frame_count meshes zcurve = CANCELLED why).
Proof.
  assert (Hallowed : forall m, existsb (String.eqb m) allowed_modifiers = true
                               <-> m ∈ allowed_modifiers).
  { intros m. rewrite existsb_exists, list_elem_of_In. split.
    - intros (a & Ha & Heq). apply String.eqb_eq in Heq. now subst.
    - intros Hin. exists m. split; [assumption | apply String.eqb_refl]. }
  split; [| split].
  - induction mods as [| m rest IH]; cbn [modifier_check].
    + split; [intros _ m Hm; now apply elem_of_nil in Hm | reflexivity].
    + destruct (existsb (String.eqb m) allowed_modifiers) eqn:Em.
      * rewrite IH. apply Hallowed in Em. split.
        -- intros Hrest a Ha. apply elem_of_cons in Ha as [-> | Ha]; auto.
        -- intros Hall a Ha. apply Hall. now constructor.
      * split; [discriminate |]. intros Hall. exfalso.
        assert (existsb (String.eqb m) allowed_modifiers = true)
          by (apply Hallowed, Hall; constructor).
        congruence.
  - induction mods as [| m rest IH]; intros why; cbn [modifier_check].
    + split; [discriminate |]. intros (before & m & after & _ & Heq & _).
      now destruct before.
    + destruct (existsb (String.eqb m) allowed_modifiers) eqn:Em.
      * rewrite IH. apply Hallowed in Em. split.
        -- intros (before & b & after & -> & -> & Hbefore & Hb).
           exists (m :: before), b, after.
           split; [reflexivity | split; [reflexivity | split; [| assumption]]].
           intros a Ha. apply elem_of_cons in Ha as [-> | Ha]; auto.
        -- intros (before & b & after & -> & Heq & Hbefore & Hb).
           destruct before as [| a before]; cbn in Heq; injection Heq as Hhd Htl.
           ++ subst b. contradiction.
           ++ exists before, b, after. split; [reflexivity | split; [assumption | split]].
              ** intros c Hc. apply Hbefore. now constructor.
              ** assumption.
      * split.
        -- intros Heq. inversion Heq; subst why.
           exists [], m, rest. split; [reflexivity | split; [reflexivity | split]].
           ++ intros a Ha. now apply elem_of_nil in Ha.
           ++ intros Hin. apply Hallowed in Hin. congruence.
        -- intros (before & b & after & -> & Heq & Hbefore & Hb).
           destruct before as [| a before]; cbn in Heq; injection Heq as Hhd Htl.
           ++ now subst b.
           ++ exfalso. assert (existsb (String.eqb m) allowed_modifiers = true)
                by (apply Hallowed; rewrite Hhd; apply Hbefore; constructor).
              congruence.
  - intros F SF MF vc fc meshes zcurve why Hwhy. unfold execute. now rewrite Hwhy.
Qed.

Lemma modifier_check_reports_first_offender_witness :
  execute ["ARMATURE"; "SUBSURF"; "BOOLEAN"]%string (4096 * 4095 + 1) 5000
    FloatModel.example_meshes true = CANCELLED (ModifierNotAllowed "SUBSURF").
Proof.
  apply (proj2 (proj2 (modifier_check_reports_first_offender
                         ["ARMATURE"; "SUBSURF"; "BOOLEAN"]%string)) float _ _).
  reflexivity.
Defined.

(** ** The UV coordinates of the export mesh *)

(** X13.  The UV pair written for a corner encodes its vertex index
    without loss: [(v + 2047) * 2048 + (u + 2048)] gives the index
    back, so two corners get the same pair exactly when they refer to
    the same vertex.  [u] is the header's [LSH] of the index and [v]
    the header's [MSH] plus one; for an index below the vertex limit
    [u] lies in [-2048, -1] and [v] in [-2047, 6142]. *)
Theorem uv_pair_round_trip (vertex_index : Z) :
  ExportMesh.uv_vertex_index (ExportMesh.loop_uv vertex_index) = vertex_index /\
  (forall other, ExportMesh.loop_uv other = ExportMesh.loop_uv vertex_index ->
     other = vertex_index) /\
  ExportMesh.loop_uv vertex_index = (Header.LSH vertex_index, Header.MSH vertex_index + 1) /\
  (0 <= vertex_index < 4096 * 4095 ->
     -2048 <= fst (ExportMesh.loop_uv vertex_index) <= -1 /\
     -2047 <= snd (ExportMesh.loop_uv vertex_index) <= 6142).
Proof.
  assert (Hround : forall i, ExportMesh.uv_vertex_index (ExportMesh.loop_uv i) = i).
  { intros i. unfold ExportMesh.uv_vertex_index, ExportMesh.loop_uv,
      ExportMesh.vertIdx_LSH, ExportMesh.vertIdx_MSH. cbn [fst snd].
    pose proof (Z.div_mod i 2048 ltac:(lia)). lia. }
  split; [apply Hround | split; [| split]].
  - intros other Heq. rewrite <- (Hround other), Heq. apply Hround.
  - unfold ExportMesh.loop_uv, ExportMesh.vertIdx_LSH, ExportMesh.vertIdx_MSH,
      Header.LSH, Header.MSH. f_equal. lia.
  - intros Hrange. unfold ExportMesh.loop_uv, ExportMesh.vertIdx_LSH, ExportMesh.vertIdx_MSH.
    cbn [fst snd].
    pose proof (Z.mod_pos_bound vertex_index 2048 ltac:(lia)).
    assert (0 <= vertex_index / 2048) by (apply Z.div_pos; lia).
    assert (vertex_index / 2048 < 8190) by (apply Z.div_lt_upper_bound; lia).
    lia.
Qed.

Lemma uv_pair_round_trip_witness :
  -2048 <= fst (ExportMesh.loop_uv 5000) <= -1 /\
  -2047 <= snd (ExportMesh.loop_uv 5000) <= 6142.
Proof.
  apply (proj2 (proj2 (proj2 (uv_pair_round_trip 5000)))). lia.
Defined.

Section UVFacts.
Context {F : Type} `{Scalar F}.
Variable fresh : nat -> list (F * F).

Lemma write_uvs_spec (ls : list (MeshLoop F)) :
  forall (index : nat) (data data' : list (F * F)),
  ExportMesh.write_uvs ls index data = Some data' ->
  length data' = length data /\
  (forall k l, ls !! k = Some l ->
     data' !! (index + k)%nat =
       Some (of_int (ExportMesh.vertIdx_LSH (Z.of_nat (vertex_index l))),
             of_int (ExportMesh.vertIdx_MSH (Z.of_nat (vertex_index l))))) /\
  (forall s, (s < index \/ index + length ls <= s)%nat -> data' !! s = data !! s).
Proof.
  induction ls as [| l rest IH]; intros index data data' Hrun.
  - cbn in Hrun. inversion Hrun; subst. split; [reflexivity | split; [| auto]].
    intros k l Hk. now rewrite lookup_nil in Hk.
  - cbn [ExportMesh.write_uvs ExportMesh.loop_uv] in Hrun.
    destruct (np_set data index _) as [data1 |] eqn:Edata1; [| discriminate].
    cbn in Hrun. destruct (IH _ _ _ Hrun) as (Hlen & Hslots & Hkeep).
    split; [| split].
    + rewrite Hlen. eapply np_set_length; eauto.
    + intros [| k] m Hk; cbn in Hk.
      * inversion Hk; subst m. rewrite Nat.add_0_r, Hkeep by lia.
        eapply np_set_same; eauto.
      * replace (index + S k)%nat with (S index + k)%nat by lia. auto.
    + intros s Hs. cbn [length] in Hs. rewrite Hkeep by lia.
      eapply np_set_other; eauto. lia.
Qed.

Lemma write_uvs_total (ls : list (MeshLoop F)) :
  forall (index : nat) (data : list (F * F)),
  (index + length ls <= length data)%nat -> is_Some (ExportMesh.write_uvs ls index data).
Proof.
  induction ls as [| l rest IH]; intros index data Hlen;
    cbn [ExportMesh.write_uvs ExportMesh.loop_uv].
  - eauto.
  - cbn [length] in Hlen. rewrite np_set_in_range by lia. cbn.
    apply IH. rewrite length_insert. lia.
Qed.

Lemma write_uvs_needs (ls : list (MeshLoop F)) :
  forall (index : nat) (data data' : list (F * F)),
  ExportMesh.write_uvs ls index data = Some data' ->
  (ls = [] \/ index + length ls <= length data)%nat.
Proof.
  induction ls as [| l rest IH]; intros index data data' Hrun; [now left |]. right.
  cbn [ExportMesh.write_uvs ExportMesh.loop_uv] in Hrun.
  destruct (np_set data index _) as [data1 |] eqn:Edata1; [| discriminate].
  cbn in Hrun. pose proof (np_set_length _ _ _ _ Edata1) as Hl1.
  apply np_set_Some in Edata1 as [Hidx _].
  destruct (IH _ _ _ Hrun) as [-> | Hle]; cbn [length]; lia.
Qed.

Lemma grow_uv_layers_spec (uv_layers : list (list (F * F))) :
  exists added,
    ExportMesh.grow_uv_layers fresh 2 uv_layers = uv_layers ++ added /\
    length (uv_layers ++ added) = Nat.max 2 (length uv_layers) /\
    Forall (λ data, exists n, data = fresh n) added.
Proof.
  destruct uv_layers as [| a [| b rest]]; cbn.
  - exists [fresh 0%nat; fresh 1%nat].
    split; [reflexivity | split; [reflexivity | repeat constructor; eauto]].
  - exists [fresh 1%nat].
    split; [reflexivity | split; [reflexivity | repeat constructor; eauto]].
  - exists []. rewrite app_nil_r.
    split; [reflexivity | split; [cbn; lia | constructor]].
Qed.

End UVFacts.

(** X14.  [create_export_mesh_object] leaves the mesh with at least
    two UV layers (it adds none when there are two already); when every
    layer has one entry a corner it returns, entry [j] of layer 1 is
    then the encoded vertex index of corner [j], and every layer the
    mesh had, layer 1 apart, is unchanged.  It raises when layer 1 has
    fewer entries than the mesh has corners. *)
Theorem export_mesh_uv_layer
    (F : Type) (SF : Scalar F) (fresh : nat -> list (F * F))
    (uv_layers : list (list (F * F))) (me : Mesh F) :
  (Forall (λ data, length data = length (loops me)) uv_layers ->
   (forall n, length (fresh n) = length (loops me)) ->
   exists uv_layers' uv_layer,
     ExportMesh.create_export_mesh_object fresh uv_layers me = Some uv_layers' /\
     length uv_layers' = Nat.max 2 (length uv_layers) /\
     uv_layers' !! 1%nat = Some uv_layer /\
     length uv_layer = length (loops me) /\
     (forall j l, loops me !! j = Some l ->
        uv_layer !! j =
          Some (of_int (Z.of_nat (vertex_index l) mod 2048 - 2048),
                of_int (Z.of_nat (vertex_index l) / 2048 - 2047))) /\
     (forall i data, i <> 1%nat -> uv_layers !! i = Some data ->
        uv_layers' !! i = Some data)) /\
  (forall uv_layer,
     ExportMesh.grow_uv_layers fresh 2 uv_layers !! 1%nat = Some uv_layer ->
     (length uv_layer < length (loops me))%nat ->
     ExportMesh.create_export_mesh_object fresh uv_layers me = None).
Proof.
  destruct (grow_uv_layers_spec fresh uv_layers) as (added & Hgrow & Hlen & Hadded).
  split.
  - intros Hlayers Hfresh.
    assert (Hall : Forall (λ data, length data = length (loops me)) (uv_layers ++ added)).
    { apply Forall_app. split; [assumption |].
      eapply Forall_impl; [exact Hadded |]. cbn. intros data [n ->]. apply Hfresh. }
    unfold ExportMesh.create_export_mesh_object. rewrite Hgrow.
    destruct (lookup_lt_is_Some_2 (uv_layers ++ added) 1%nat ltac:(lia)) as [layer1 Hl1].
    rewrite Hl1. cbn.
    assert (Hlen1 : length layer1 = length (loops me)).
    { rewrite Forall_forall in Hall. apply Hall. eapply list_elem_of_lookup_2; eauto. }
    destruct (write_uvs_total (loops me) 0 layer1 ltac:(lia)) as [data Hdata].
    rewrite Hdata. cbn. rewrite np_set_in_range by lia.
    destruct (write_uvs_spec _ _ _ _ Hdata) as (Hdlen & Hslots & _).
    exists (<[1%nat:=data]> (uv_layers ++ added)), data.
    split; [reflexivity |]. split; [now rewrite length_insert |].
    split; [apply list_lookup_insert_eq; lia |].
    split; [congruence |]. split.
    + intros j l Hj. exact (Hslots j l Hj).
    + intros i layer Hi Hlayer. rewrite list_lookup_insert_ne by congruence.
      apply lookup_app_l_Some. exact Hlayer.
  - intros uv_layer Hl1 Hshort. unfold ExportMesh.create_export_mesh_object.
    rewrite Hl1. cbn.
    destruct (ExportMesh.write_uvs (loops me) 0 uv_layer) as [data |] eqn:Hdata;
      [| reflexivity].
    exfalso. destruct (write_uvs_needs _ _ _ _ Hdata) as [Hnil | Hle].
    + rewrite Hnil in Hshort. cbn in Hshort. lia.
    + lia.
Qed.

Lemma export_mesh_uv_layer_witness :
  exists uv_layers' uv_layer,
    ExportMesh.create_export_mesh_object (fun _ => [(0, 0); (0, 0); (0, 0)]%float)
      [] (mkMesh [FloatModel.vertex 0 0 0] FloatModel.example_corners) = Some uv_layers' /\
    length uv_layers' = 2%nat /\
    uv_layers' !! 1%nat = Some uv_layer /\
    uv_layer !! 2%nat = Some (-2046, -2047)%float.
Proof.
  destruct (proj1 (export_mesh_uv_layer float FloatModel.float_scalar
                     (fun _ => [(0, 0); (0, 0); (0, 0)]%float) []
                     (mkMesh [FloatModel.vertex 0 0 0] FloatModel.example_corners))
              ltac:(constructor) ltac:(reflexivity))
    as (layers' & layer & Hrun & Hlen & Hl1 & _ & Hslots & _).
  exists layers', layer. split; [exact Hrun | split; [exact Hlen | split; [exact Hl1 |]]].
  exact (Hslots 2%nat (mkLoop 2%nat (FloatModel.vec 0 0 1) (FloatModel.vec 1 0 0))%float
           eq_refl).
Defined.

(** ** The exported files *)

Lemma append_inv_head (a b c : string) : (a ++ b = a ++ c)%string -> b = c.
Proof.
  induction a as [| ch a IH]; cbn; intros Heq; [assumption |].
  injection Heq as Heq. now apply IH.
Qed.

(** X15.  The operator writes no file when [do_file_export] is off,
    two when it is on and [gen_mesh] is off, three when both are on, and
    the paths it writes are pairwise different, so no export overwrites
    another one. *)
Theorem export_paths_distinct (settings : ExportSettings) :
  NoDup (export_paths settings) /\
  length (export_paths settings) =
    (if do_file_export settings then if gen_mesh settings then 3 else 2 else 0)%nat.
Proof.
  unfold export_paths.
  destruct (do_file_export settings); [| split; [constructor | reflexivity]].
  set (base := (export_folder settings ++ export_file settings)%string).
  assert (Hmn : (base ++ "_map.exr" <> base ++ "_normal.exr")%string)
    by (intros Heq; apply append_inv_head in Heq; discriminate Heq).
  assert (Hmm : (base ++ "_map.exr" <> base ++ "_mesh.fbx")%string)
    by (intros Heq; apply append_inv_head in Heq; discriminate Heq).
  assert (Hnm : (base ++ "_normal.exr" <> base ++ "_mesh.fbx")%string)
    by (intros Heq; apply append_inv_head in Heq; discriminate Heq).
  destruct (gen_mesh settings); cbn [app]; (split; [| reflexivity]).
  - repeat (apply NoDup_cons; split);
      rewrite ?elem_of_cons, ?elem_of_nil; try tauto. constructor.
  - repeat (apply NoDup_cons; split);
      rewrite ?elem_of_cons, ?elem_of_nil; try tauto. constructor.
Qed.

(** ** Hard edges *)

Section SelectionFacts.
Context {F : Type}.
Variable sharper : Vec3 F -> Vec3 F -> option bool.


End SelectionFacts.



(** ** More on the Morton decode *)

(** X17.  Both decoders read only the 32 low bits of their argument,
    for every integer, negative ones included: the result is that of
    the argument reduced modulo [2^32]. *)
Theorem morton_decode_reads_low_32_bits (code : Z) :
  Morton.DecodeMorton2X code = Morton.DecodeMorton2X (code mod 2 ^ 32) /\
  Morton.DecodeMorton2Y code = Morton.DecodeMorton2Y (code mod 2 ^ 32).
Proof.
  split; apply Z.bits_inj'; intros i Hi.
  - rewrite !MortonFacts.DecodeMorton2X_testbit by lia.
    destruct (Z.ltb_spec i 16); [| reflexivity].
    now rewrite Z.mod_pow2_bits_low by lia.
  - rewrite !MortonFacts.DecodeMorton2Y_testbit by lia.
    destruct (Z.ltb_spec i 16); [| reflexivity].
    now rewrite Z.mod_pow2_bits_low by lia.
Qed.

(** X18.  For [k <= 16] the indices below [4^k] decode into the square
    of side [2^k] and fill it: every cell of the square is the decode
    of exactly one index below [4^k], so a buffer of [4^k] pixels
    leaves no gap in its square. *)
Theorem zcurve_fills_squares (k : Z) :
  0 <= k <= 16 ->
  (forall idx, 0 <= idx < 4 ^ k ->
     0 <= Morton.DecodeMorton2X idx < 2 ^ k /\ 0 <= Morton.DecodeMorton2Y idx < 2 ^ k) /\
  (forall x y, 0 <= x < 2 ^ k -> 0 <= y < 2 ^ k ->
     exists idx, 0 <= idx < 4 ^ k /\ Morton.MortonDecode idx = (x, y) /\
       forall other, 0 <= other < 4 ^ k -> Morton.MortonDecode other = (x, y) ->
         other = idx).
Proof.
  intros Hk.
  assert (H4 : 4 ^ k = 2 ^ (2 * k)) by (rewrite Z.pow_mul_r by lia; reflexivity).
  assert (Hsq : 4 ^ k = 2 ^ k * 2 ^ k)
    by (rewrite H4; replace (2 * k) with (k + k) by lia; apply Z.pow_add_r; lia).
  assert (H2pos : 0 < 2 ^ k) by (apply Z.pow_pos_nonneg; lia).
  assert (H32 : 4 ^ k <= 2 ^ 32) by (rewrite H4; apply Z.pow_le_mono_r; lia).
  assert (Hin : forall idx, 0 <= idx < 4 ^ k ->
            0 <= Morton.DecodeMorton2X idx < 2 ^ k /\ 0 <= Morton.DecodeMorton2Y idx < 2 ^ k).
  { intros idx Hidx. rewrite H4 in Hidx.
    pose proof (MortonFacts.DecodeMorton2X_range idx).
    pose proof (MortonFacts.DecodeMorton2Y_range idx).
    pose proof (MortonFacts.DecodeMorton2X_bound idx k ltac:(lia) Hidx).
    pose proof (MortonFacts.DecodeMorton2Y_bound idx k ltac:(lia) Hidx). lia. }
  split; [exact Hin |].
  intros x y Hx Hy.
  set (n := Z.to_nat (4 ^ k)). set (side := Z.to_nat (2 ^ k)).
  assert (Hn : Z.of_nat n = 4 ^ k) by (unfold n; lia).
  assert (Hnd : NoDup (map cell (seq 0 n))) by (apply cells_NoDup; lia).
  assert (Hsub : map cell (seq 0 n) ⊆+ list_prod (seq 0 side) (seq 0 side)).
  { apply NoDup_submseteq; [assumption |].
    intros c Hc. apply cell_in_range in Hc as (idx & Hidx & <-).
    destruct (Hin (Z.of_nat idx) ltac:(lia)) as [Hxi Hyi].
    apply list_elem_of_In, in_prod_iff. unfold cell, morton_x, morton_y, side.
    split; apply in_seq; lia. }
  assert (Hperm : map cell (seq 0 n) ≡ₚ list_prod (seq 0 side) (seq 0 side)).
  { apply submseteq_length_Permutation; [assumption |].
    rewrite length_map, length_seq, length_prod, !length_seq. unfold n, side. nia. }
  assert (Hcell : (Z.to_nat y, Z.to_nat x) ∈ map cell (seq 0 n)).
  { rewrite Hperm. apply list_elem_of_In, in_prod_iff. unfold side.
    split; apply in_seq; lia. }
  apply cell_in_range in Hcell as (idx & Hidx & Hcell).
  apply cell_decode in Hcell; [| lia | lia].
  exists (Z.of_nat idx). split; [lia | split; [assumption |]].
  intros other Hother Hdec.
  apply MortonFacts.MortonDecode_inj; [lia | lia | congruence].
Qed.

Lemma zcurve_fills_squares_witness :
  exists idx, 0 <= idx < 4 ^ 2 /\ Morton.MortonDecode idx = (3, 2).
Proof.
  destruct (proj2 (zcurve_fills_squares 2 ltac:(lia)) 3 2 ltac:(lia) ltac:(lia))
    as (idx & Hidx & Hdec & _).
  exists idx. split; [exact Hidx | exact Hdec].
Defined.

(** ** Snapshots of different sizes *)

Section FrameStarts.
Context {F : Type} `{Scalar F} `{Mathutils F}.

Lemma frames_loop_offsets_packed (original : list (MeshVertex F))
    (originalL : list (MeshLoop F)) (meshes : list (Mesh F)) :
  forall (start : nat) (offs norms offs' norms' : list (Pixel F)),
  frames_loop original originalL meshes start offs norms = Some (offs', norms') ->
  forall f me v p, meshes !! f = Some me -> vertices me !! v = Some p ->
    exists p0, original !! v = Some p0 /\
      offs' !! (start + vertices_before meshes f + v)%nat
        = Some (offset_pixel (vsub (co p) (co p0))).
Proof.
  induction meshes as [| me rest IH]; intros start offs norms offs' norms' Hrun f m v p Hm Hv.
  - now rewrite lookup_nil in Hm.
  - cbn [frames_loop] in Hrun.
    destruct (write_offsets original (vertices me) 0 start offs) as [offs1 |] eqn:Eoffs1;
      [| discriminate]. cbn in Hrun.
    destruct (write_rotations originalL (loops me) 0 start norms) as [norms1 |] eqn:Enorms1;
      [| discriminate]. cbn in Hrun.
    destruct f as [| f]; cbn in Hm.
    + inversion Hm; subst m.
      destruct (write_offsets_spec _ _ _ _ _ _ Eoffs1) as (_ & Hslots & _).
      destruct (Hslots v p Hv) as (p0 & Hp0 & Hslot).
      exists p0. split; [assumption |].
      destruct (frames_loop_below _ _ _ _ _ _ _ _ Hrun) as (_ & _ & Hbelow).
      apply lookup_lt_Some in Hv.
      unfold vertices_before. cbn [take foldr].
      destruct (Hbelow (start + 0 + v)%nat ltac:(lia)) as [-> _].
      rewrite <- Hslot. f_equal. lia.
    + destruct (IH _ _ _ _ _ Hrun f m v p Hm Hv) as (p0 & Hp0 & Hslot).
      exists p0. split; [assumption |]. rewrite <- Hslot. f_equal.
      unfold vertices_before. cbn [take foldr]. lia.
Qed.

End FrameStarts.

(** X19.  Without any assumption on the snapshots: in what
    [get_vertex_data] returns, the offsets of a frame are packed right
    after those of the frames before it, so the offset of vertex [v] at
    frame [f] is at slot [1 + (vertices of frames 0..f-1) + v].  A
    snapshot with fewer vertices than frame 0 is accepted without an
    error and shifts every later frame away from
    [1 + f*vertex_count + v]. *)
Theorem offsets_packed_by_actual_counts
    (F : Type) (SF : Scalar F) (MF : Mathutils F)
    (meshes : list (Mesh F)) (hv hf : Z) (offsets normals : list F)
    (f v : nat) (snapshot reference : Mesh F) (p p0 : MeshVertex F) :
  get_vertex_data meshes hv hf = Some (offsets, normals) ->
  meshes !! f = Some snapshot -> meshes !! 0%nat = Some reference ->
  vertices snapshot !! v = Some p -> vertices reference !! v = Some p0 ->
  pixel_at offsets (1 + vertices_before meshes f + v)%nat
    = Some (offset_pixel (vsub (co p) (co p0))).
Proof.
  intros Hrun Hf H0 Hv Hv0.
  destruct (get_vertex_data_rows _ _ _ _ _ Hrun) as (offs & norms & Hrows & -> & ->).
  rewrite pixel_at_flatten.
  destruct meshes as [| m0 rest]; [discriminate |].
  cbn in H0. inversion H0; subst m0.
  rewrite vertex_data_rows_unfold in Hrows.
  destruct (frames_loop_offsets_packed _ _ _ _ _ _ _ _ Hrows f snapshot v p Hf Hv)
    as (q0 & Hq0 & Hslot).
  rewrite Hv0 in Hq0. inversion Hq0; subst q0. exact Hslot.
Qed.

Lemma offsets_packed_by_actual_counts_witness :
  exists offsets normals,
    get_vertex_data FloatModel.uneven_meshes 2 3 = Some (offsets, normals) /\
    pixel_at offsets (1 + 3 + 1)%nat = Some (px 0 0 2 1)%float /\
    (1 + 3 + 1 <> 1 + 2 * 2 + 1)%nat.
Proof.
  destruct (get_vertex_data FloatModel.uneven_meshes 2 3) as [[offsets normals] |] eqn:Hrun;
    [| vm_compute in Hrun; discriminate Hrun].
  exists offsets, normals. split; [reflexivity |]. split; [| lia].
  exact (offsets_packed_by_actual_counts float FloatModel.float_scalar
           FloatModel.float_mathutils FloatModel.uneven_meshes 2 3 offsets normals
           2%nat 1%nat
           (mkMesh [FloatModel.vertex 0 0 2; FloatModel.vertex 1 0 2] [])
           (mkMesh [FloatModel.vertex 0 0 0; FloatModel.vertex 1 0 0] [])
           (FloatModel.vertex 1 0 2) (FloatModel.vertex 1 0 0)
           Hrun eq_refl eq_refl eq_refl eq_refl)%float.
Defined.
